(** * Implicitization of Bezier curves: a shallow embedding of
    [bezier/_implicitization.py] over exact rational arithmetic.

    Floating-point values of the source are modelled by [Q]; equalities
    between computed reals are stated with [==] ([Qeq]).  NumPy arrays of
    shape [N x 2] are lists of coordinate pairs, general two-dimensional
    arrays are lists of rows, and Python exceptions are values of the
    type [exn] carried on the left of a sum. *)

From Stdlib Require Import String List ZArith QArith Lia Lqa Setoid Morphisms.
Import ListNotations.
Open Scope Q_scope.

(** ** Python exceptions and the error monad *)

Module Py.

(** Positional arguments given to an exception constructor. *)
Inductive value : Type :=
| Str (s : string)
| Int (n : Z).

Inductive exn : Type :=
| ValueError (args : list value)
| NotImplementedError (args : list value).

Definition exn_args (e : exn) : list value :=
  match e with
  | ValueError args => args
  | NotImplementedError args => args
  end.

Definition result (A : Type) : Type := (exn + A)%type.

Definition ret {A : Type} (a : A) : result A := inr a.

Definition raise {A : Type} (e : exn) : result A := inl e.

Definition bind {A B : Type} (m : result A) (k : A -> result B) : result B :=
  match m with
  | inl e => inl e
  | inr a => k a
  end.

Definition raises {A : Type} (m : result A) : Prop :=
  exists e, m = inl e.

Definition returns {A : Type} (m : result A) : Prop :=
  exists a, m = inr a.

End Py.

Import Py.

Notation "x <- m ;; k" := (bind m (fun x => k))
  (at level 61, m at next level, right associativity).

(** ** Arrays *)

(** An [N x 2] array of nodes: one coordinate pair per row. *)
Definition nodes_t : Type := list (Q * Q).

(** A general two-dimensional array, as a list of rows. *)
Definition matrix : Type := list (list Q).

(** [nodes[i, 0]] and [nodes[i, 1]]. *)
Definition col0 (nodes : nodes_t) (i : nat) : Q := fst (nth i nodes (0, 0)).
Definition col1 (nodes : nodes_t) (i : nat) : Q := snd (nth i nodes (0, 0)).

(** [np.zeros((r, c))]. *)
Definition zeros (r c : nat) : matrix := repeat (repeat 0 c) r.

(** Overwrite the leading cells of [dst] with [put s d], one per cell of [src]. *)
Fixpoint zip_over {A B : Type} (put : B -> A -> A) (src : list B) (dst : list A)
  : list A :=
  match src, dst with
  | s :: src', d :: dst' => put s d :: zip_over put src' dst'
  | _, _ => dst
  end.

(** Apply [f] to the suffix of [l] that starts at index [k]. *)
Fixpoint from {A : Type} (k : nat) (f : list A -> list A) (l : list A) : list A :=
  match k, l with
  | O, _ => f l
  | S k', a :: l' => a :: from k' f l'
  | S _, [] => []
  end.

(** The slice assignment [m[r0:r0+rows(blk), c0:c0+cols(blk)] = blk]. *)
Definition set_block (r0 c0 : nat) (blk m : matrix) : matrix :=
  from r0
       (zip_over (fun brow mrow => from c0 (zip_over (fun b _ => b) brow) mrow) blk)
       m.

(** [delta[lo:hi, :] *= k] on an [N x 2] array. *)
Definition scale_rows (lo hi : nat) (k : Q) (delta : nodes_t) : nodes_t :=
  from lo
       (fun l => map (fun p => (fst p * k, snd p * k)) (firstn (hi - lo)%nat l)
                 ++ skipn (hi - lo)%nat l)
       delta.

(** The rows of an [N x 2] array, as a general array. *)
Definition rows_of (a : nodes_t) : matrix := map (fun p => [fst p; snd p]) a.

(** ** Determinants

    [np.linalg.det] is NumPy's; in exact arithmetic it returns the
    determinant, which is defined here by Laplace expansion along the
    first row. *)

Fixpoint remove_col (j : nat) (row : list Q) : list Q :=
  match row, j with
  | [], _ => []
  | _ :: r, O => r
  | a :: r, S j' => a :: remove_col j' r
  end.

(** [sum_j sign * (-1)^(j - j0) * row_j * minor j], for [j] from [j0]. *)
Fixpoint alt_sum (minor : nat -> Q) (sign : Q) (j : nat) (row : list Q) : Q :=
  match row with
  | [] => 0
  | a :: r => sign * a * minor j + alt_sum minor (- sign) (S j) r
  end.

Fixpoint det_rec (n : nat) (m : matrix) : Q :=
  match n, m with
  | S n', row :: rest =>
      alt_sum (fun j => det_rec n' (map (remove_col j) rest)) 1 O row
  | _, _ => 1
  end.

Definition det (m : matrix) : Q := det_rec (length m) m.

(** ** The implicit evaluator *)

Definition _evaluate3 (nodes : nodes_t) (x_val y_val : Q) : Q :=
  let sylvester_mat := zeros 6 6 in
  let delta := map (fun p => (fst p - x_val, snd p - y_val)) nodes in
  let delta := scale_rows 1 3 3 delta in
  let sylvester_mat := set_block 0 0 (rows_of delta) sylvester_mat in
  let sylvester_mat := set_block 1 2 (rows_of delta) sylvester_mat in
  let sylvester_mat := set_block 2 4 (rows_of delta) sylvester_mat in
  det sylvester_mat.

Definition evaluate (nodes : nodes_t) (x_val y_val : Q) : result Q :=
  let num_nodes := length nodes in
  if Nat.eqb num_nodes 1 then
    raise (ValueError [Str "A point cannot be implicitized"%string])
  else if Nat.eqb num_nodes 2 then
    ret ((col0 nodes 0 - x_val) * (col1 nodes 1 - y_val) -
         (col0 nodes 1 - x_val) * (col1 nodes 0 - y_val))
  else if Nat.eqb num_nodes 3 then
    let val_a := col0 nodes 0 - x_val in
    let val_b := col0 nodes 1 - x_val in
    let val_c := col0 nodes 2 - x_val in
    let val_b := val_b * 2 in
    let val_d := col1 nodes 0 - y_val in
    let val_e := col1 nodes 1 - y_val in
    let val_f := col1 nodes 2 - y_val in
    let val_e := val_e * 2 in
    let sub1 := val_b * val_f - val_c * val_e in
    let sub2 := val_a * val_f - val_c * val_d in
    let sub_det_a := - val_e * sub1 + val_f * sub2 in
    let sub_det_d := val_b * sub1 - val_c * sub2 in
    ret (val_a * sub_det_a + val_d * sub_det_d)
  else if Nat.eqb num_nodes 4 then
    ret (_evaluate3 nodes x_val y_val)
  else
    raise (NotImplementedError [Str "Only degrees 1 and 2 supported"%string]).

(** [yields m q]: the call returns normally, with a value equal to [q]. *)
Definition yields (m : result Q) (q : Q) : Prop :=
  exists v, m = inr v /\ v == q.

(** ** Curve evaluation *)

Fixpoint binomial (n k : nat) : nat :=
  match n, k with
  | _, O => 1
  | O, S _ => 0
  | S n', S k' => binomial n' k' + binomial n' k
  end.

Fixpoint qpow (t : Q) (n : nat) : Q :=
  match n with
  | O => 1
  | S n' => t * qpow t n'
  end.

(** The Bernstein basis polynomial [C(d,i) (1-s)^(d-i) s^i]. *)
Definition bernstein (d i : nat) (s : Q) : Q :=
  inject_Z (Z.of_nat (binomial d i)) * qpow (1 - s) (d - i) * qpow s i.

Fixpoint bernstein_sum (d i : nat) (rows : nodes_t) (s : Q) : Q * Q :=
  match rows with
  | [] => (0, 0)
  | p :: rest =>
      let w := bernstein d i s in
      let acc := bernstein_sum d (S i) rest s in
      (w * fst p + fst acc, w * snd p + snd acc)
  end.

(** Modelled from the spec: [_curve_helpers.evaluate_multi], the consumed
    curve-evaluation capability, is not part of the sources at hand.  The
    spec describes it as: given a curve's node array and a sequence of
    parameter values, return the corresponding sequence of (x, y)
    coordinate pairs, by Bernstein-basis (de Casteljau) evaluation. *)
Definition evaluate_multi (nodes : nodes_t) (s_vals : list Q) : nodes_t :=
  map (bernstein_sum (length nodes - 1) 0 nodes) s_vals.

(** ** The intersection polynomial and its power basis *)

Definition eval_intersection_polynomial (nodes1 nodes2 : nodes_t) (t : Q)
  : result Q :=
  match evaluate_multi nodes2 [t] with
  | [] =>
      raise (ValueError [Str "not enough values to unpack (expected 1, got 0)"%string])
  | [(x_val, y_val)] => evaluate nodes1 x_val y_val
  | _ :: _ :: _ =>
      raise (ValueError [Str "too many values to unpack (expected 1)"%string])
  end.

Definition _to_power_basis11 (nodes1 nodes2 : nodes_t) : result (list Q) :=
  val0 <- eval_intersection_polynomial nodes1 nodes2 0 ;;
  val1 <- eval_intersection_polynomial nodes1 nodes2 1 ;;
  ret [val0; - val0 + val1].

Definition _to_power_basis12 (nodes1 nodes2 : nodes_t) : result (list Q) :=
  val0 <- eval_intersection_polynomial nodes1 nodes2 0 ;;
  val1 <- eval_intersection_polynomial nodes1 nodes2 0.5 ;;
  val2 <- eval_intersection_polynomial nodes1 nodes2 1 ;;
  ret [val0;
       -3 * val0 + 4 * val1 - val2;
       2 * val0 - 4 * val1 + 2 * val2].

Definition _to_power_basis13 (nodes1 nodes2 : nodes_t) : result (list Q) :=
  val0 <- eval_intersection_polynomial nodes1 nodes2 0 ;;
  val1 <- eval_intersection_polynomial nodes1 nodes2 0.25 ;;
  val2 <- eval_intersection_polynomial nodes1 nodes2 0.75 ;;
  val3 <- eval_intersection_polynomial nodes1 nodes2 1 ;;
  ret [3 * val0;
       -19 * val0 + 24 * val1 - 8 * val2 + 3 * val3;
       32 * val0 - 56 * val1 + 40 * val2 - 16 * val3;
       -16 * val0 + 32 * val1 - 32 * val2 + 16 * val3].

Definition _to_power_basis22 (nodes1 nodes2 : nodes_t) : result (list Q) :=
  val0 <- eval_intersection_polynomial nodes1 nodes2 0 ;;
  val1 <- eval_intersection_polynomial nodes1 nodes2 0.25 ;;
  val2 <- eval_intersection_polynomial nodes1 nodes2 0.5 ;;
  val3 <- eval_intersection_polynomial nodes1 nodes2 0.75 ;;
  val4 <- eval_intersection_polynomial nodes1 nodes2 1 ;;
  ret [3 * val0;
       -25 * val0 + 48 * val1 - 36 * val2 + 16 * val3 - 3 * val4;
       70 * val0 - 208 * val1 + 228 * val2 - 112 * val3 + 22 * val4;
       -80 * val0 + 288 * val1 - 384 * val2 + 224 * val3 - 48 * val4;
       32 * val0 - 128 * val1 + 192 * val2 - 128 * val3 + 32 * val4].

Definition to_power_basis (nodes1 nodes2 : nodes_t) : result (list Q) :=
  let num_nodes1 := length nodes1 in
  let num_nodes2 := length nodes2 in
  let unsupported : result (list Q) :=
    raise (NotImplementedError
             [Str "Degree 1"%string; Int (Z.of_nat num_nodes1 - 1);
              Str "Degree2"%string; Int (Z.of_nat num_nodes2 - 1);
              Str "Currently only supporting degree pairs 1-1, 1-2, 1-3 and 2-2"%string]) in
  if Nat.eqb num_nodes1 2 then
    if Nat.eqb num_nodes2 2 then _to_power_basis11 nodes1 nodes2
    else if Nat.eqb num_nodes2 3 then _to_power_basis12 nodes1 nodes2
    else if Nat.eqb num_nodes2 4 then _to_power_basis13 nodes1 nodes2
    else unsupported
  else if Nat.eqb num_nodes1 3 then
    if Nat.eqb num_nodes2 3 then _to_power_basis22 nodes1 nodes2
    else unsupported
  else unsupported.

(** Horner evaluation of a coefficient array in ascending power order. *)
Definition horner (coeffs : list Q) (t : Q) : Q :=
  fold_right (fun c acc => c + t * acc) 0 coeffs.


(** The position of the curve at a single parameter value. *)
Definition position (nodes : nodes_t) (t : Q) : Q * Q :=
  hd (0, 0) (evaluate_multi nodes [t]).

(** The degree of a curve, from its node count. *)
Definition degree (nodes : nodes_t) : Z := Z.of_nat (length nodes) - 1.

(** The degree pairs for which a conversion is implemented. *)
Definition supported_pair (d1 d2 : Z) : bool :=
  existsb (fun p => (fst p =? d1)%Z && (snd p =? d2)%Z)
          [(1, 1); (1, 2); (1, 3); (2, 2)]%Z.

(** The parameters at which each supported pair is sampled, and the
    factor by which the returned coefficients are scaled. *)
Definition sample_points (d1 d2 : Z) : list Q :=
  match d1, d2 with
  | 1%Z, 1%Z => [0; 1]
  | 1%Z, 2%Z => [0; 0.5; 1]
  | 1%Z, 3%Z => [0; 0.25; 0.75; 1]
  | 2%Z, 2%Z => [0; 0.25; 0.5; 0.75; 1]
  | _, _ => []
  end.

Definition scale_factor (d1 d2 : Z) : Q :=
  match d1, d2 with
  | 1%Z, 3%Z => 3
  | 2%Z, 2%Z => 3
  | _, _ => 1
  end.

(** Every row of [nodes] moved by [(dx, dy)]. *)
Definition translate (dx dy : Q) (nodes : nodes_t) : nodes_t :=
  map (fun p => (fst p + dx, snd p + dy)) nodes.

(** ** Matrices of the specification *)

(** The modified Sylvester matrix of a degree-2 curve. *)
Definition modified_sylvester4 (a b c d e f : Q) : matrix :=
  [[a; b; c; 0];
   [0; a; b; c];
   [d; e; f; 0];
   [0; d; e; f]].

(** Row [i] of [delta = nodes - query], rows 1 and 2 multiplied by 3. *)
Definition spec_delta (nodes : nodes_t) (x y : Q) (i : nat) : Q * Q :=
  let dx := col0 nodes i - x in
  let dy := col1 nodes i - y in
  if (Nat.eqb i 1 || Nat.eqb i 2)%bool then (dx * 3, dy * 3) else (dx, dy).

(** Entry [(i, j)] of the 6x6 matrix: column band [j / 2] holds [delta] in
    rows [band .. band + 3], everything else is zero. *)
Definition spec_entry (nodes : nodes_t) (x y : Q) (i j : nat) : Q :=
  let band := Nat.div2 j in
  if (Nat.leb band i && Nat.leb i (band + 3))%bool then
    let d := spec_delta nodes x y (i - band) in
    if Nat.even j then fst d else snd d
  else 0.

Definition spec_sylvester6 (nodes : nodes_t) (x y : Q) : matrix :=
  map (fun i => map (spec_entry nodes x y i) (seq 0 6)) (seq 0 6).

(** The same matrix, written out for four rows [d0 .. d3] of [delta]. *)
Definition sylvester6 (d0 d1 d2 d3 : Q * Q) : matrix :=
  [[fst d0; snd d0; 0;      0;      0;      0];
   [fst d1; snd d1; fst d0; snd d0; 0;      0];
   [fst d2; snd d2; fst d1; snd d1; fst d0; snd d0];
   [fst d3; snd d3; fst d2; snd d2; fst d1; snd d1];
   [0;      0;      fst d3; snd d3; fst d2; snd d2];
   [0;      0;      0;      0;      fst d3; snd d3]].

(** ** Cofactors *)

Definition remove_row (k : nat) (m : matrix) : matrix :=
  firstn k m ++ skipn (S k) m.

Definition cofactor (m : matrix) (k j : nat) : Q :=
  (if Nat.even (k + j) then 1 else - (1)) *
  det (map (remove_col j) (remove_row k m)).

(** [sum_k C(5,k) * cofactor m k j], over the six rows [k]. *)
Definition kernel_weight (m : matrix) (j : nat) : Q :=
  fold_right
    (fun k acc => inject_Z (Z.of_nat (binomial 5 k)) * cofactor m k j + acc)
    0 (seq 0 6).

(** A cubic in scaled Bernstein form: the coefficients already carry the
    binomial factors. *)
Definition cubic_form (c0 c1 c2 c3 s : Q) : Q :=
  c0 * qpow (1 - s) 3 + c1 * (qpow (1 - s) 2 * s) +
  c2 * ((1 - s) * qpow s 2) + c3 * qpow s 3.

(** ** Auxiliary notions of the statements *)

(** Two arrays with pairwise equal entries. *)
Definition mat_eq : matrix -> matrix -> Prop := Forall2 (Forall2 Qeq).

(** An exception names the degree [d] when [d] is among its arguments. *)
Definition names_degree (e : exn) (d : Z) : Prop := In (Int d) (exn_args e).

(** De Casteljau's algorithm: repeated interpolation of adjacent nodes. *)
Fixpoint lerp_adjacent (t : Q) (rows : nodes_t) : nodes_t :=
  match rows with
  | p :: rest =>
      match rest with
      | q :: _ =>
          ((1 - t) * fst p + t * fst q, (1 - t) * snd p + t * snd q)
            :: lerp_adjacent t rest
      | [] => []
      end
  | [] => []
  end.

Fixpoint de_casteljau_rec (k : nat) (t : Q) (rows : nodes_t) : nodes_t :=
  match k with
  | O => rows
  | S k' => de_casteljau_rec k' t (lerp_adjacent t rows)
  end.

Definition de_casteljau (nodes : nodes_t) (t : Q) : Q * Q :=
  hd (0, 0) (de_casteljau_rec (length nodes - 1) t nodes).

(** ** Further notions: closed forms and maps of the plane *)

(** The 2x2 minor [a_i b_j - a_j b_i] of two rows of [delta]. *)
Definition bracket (d e : Q * Q) : Q := fst d * snd e - fst e * snd d.

(** The Bezout matrix of the two cubics with coefficient rows [d0 .. d3]. *)
Definition bezout3 (d0 d1 d2 d3 : Q * Q) : matrix :=
  [[bracket d0 d1; bracket d0 d2; bracket d0 d3];
   [bracket d0 d2; bracket d0 d3 + bracket d1 d2; bracket d1 d3];
   [bracket d0 d3; bracket d1 d3; bracket d2 d3]].

(** The modified Sylvester matrix of degree 3 in the arrangement of the
    degree-2 comment of [evaluate]: three shifted rows of x-coefficients,
    then three shifted rows of y-coefficients. *)
Definition standard_sylvester6 (d0 d1 d2 d3 : Q * Q) : matrix :=
  [[fst d0; fst d1; fst d2; fst d3; 0;      0];
   [0;      fst d0; fst d1; fst d2; fst d3; 0];
   [0;      0;      fst d0; fst d1; fst d2; fst d3];
   [snd d0; snd d1; snd d2; snd d3; 0;      0];
   [0;      snd d0; snd d1; snd d2; snd d3; 0];
   [0;      0;      snd d0; snd d1; snd d2; snd d3]].

(** Degree elevation: the same curve, written with one more node.  Node
    [i] of the result is [w * nodes[i-1] + (1 - w) * nodes[i]] with
    [w = i / N], for a curve of [N] nodes. *)
Definition elevate (nodes : nodes_t) : nodes_t :=
  let n := length nodes in
  map (fun i =>
         let w := inject_Z (Z.of_nat i) / inject_Z (Z.of_nat n) in
         (w * col0 nodes (i - 1) + (1 - w) * col0 nodes i,
          w * col1 nodes (i - 1) + (1 - w) * col1 nodes i))
      (seq 0 (S n)).

(** The linear map with matrix [[l11, l12], [l21, l22]]. *)
Definition linear_map (l11 l12 l21 l22 : Q) (p : Q * Q) : Q * Q :=
  (l11 * fst p + l12 * snd p, l21 * fst p + l22 * snd p).

(** ** Coefficient arrays as polynomials *)

(** The polynomial whose coefficient of [t^(k + i)] is the entry of
    [coeffs] at index [i]. *)
Fixpoint power_sum_from (k : nat) (coeffs : list Q) (t : Q) : Q :=
  match coeffs with
  | [] => 0
  | c :: rest => c * qpow t k + power_sum_from (S k) rest t
  end.

(** A coefficient array read in ascending power order: the entry at index
    [i] multiplies [t^i]. *)
Definition power_sum (coeffs : list Q) (t : Q) : Q := power_sum_from 0 coeffs t.

(** * Properties *)

(** ** The determinant respects [==] entry by entry *)

Lemma remove_col_eq (j : nat) (r r' : list Q) :
  Forall2 Qeq r r' -> Forall2 Qeq (remove_col j r) (remove_col j r').
Proof.
  intros H. revert j.
  induction H as [| a b r r' Hab Hr IH]; intros j.
  - destruct j; constructor.
  - destruct j; simpl.
    + exact Hr.
    + constructor; [exact Hab | apply IH].
Qed.

Lemma minor_eq (j : nat) (m m' : matrix) :
  mat_eq m m' -> mat_eq (map (remove_col j) m) (map (remove_col j) m').
Proof.
  induction 1 as [| r r' m m' Hr Hm IH]; simpl; constructor.
  - apply remove_col_eq, Hr.
  - exact IH.
Qed.

Lemma alt_sum_eq (f g : nat -> Q) (r r' : list Q) :
  (forall j, f j == g j) -> Forall2 Qeq r r' ->
  forall (s s' : Q) (j : nat), s == s' -> alt_sum f s j r == alt_sum g s' j r'.
Proof.
  intros Hfg H.
  induction H as [| a b r r' Hab Hr IH]; intros s s' j Hs; simpl.
  - reflexivity.
  - apply Qplus_comp.
    + apply Qmult_comp; [apply Qmult_comp; assumption | apply Hfg].
    + apply IH, Qopp_comp, Hs.
Qed.

Lemma det_rec_eq (n : nat) :
  forall m m', mat_eq m m' -> det_rec n m == det_rec n m'.
Proof.
  induction n as [| n IH]; intros m m' H.
  - destruct m, m'; reflexivity.
  - destruct H as [| r r' m m' Hr Hm]; simpl.
    + reflexivity.
    + apply alt_sum_eq; [| exact Hr | reflexivity].
      intros j. apply IH, minor_eq, Hm.
Qed.

Lemma det_eq (m m' : matrix) : mat_eq m m' -> det m == det m'.
Proof.
  intros H. unfold det.
  rewrite (Forall2_length H).
  apply det_rec_eq, H.
Qed.

(** ** Shapes *)

Lemma rows_2_to_4 (nodes : nodes_t) :
  (2 <= length nodes <= 4)%nat ->
  (exists p0 p1, nodes = [p0; p1]) \/
  (exists p0 p1 p2, nodes = [p0; p1; p2]) \/
  (exists p0 p1 p2 p3, nodes = [p0; p1; p2; p3]).
Proof.
  destruct nodes as [| p0 [| p1 [| p2 [| p3 [| p4 rest]]]]]; simpl; intros H;
    try lia; eauto 8.
Qed.

Ltac arith_only :=
  cbv -[Qplus Qmult Qminus Qopp Qeq Qdiv Qinv].

(** ** The determinant on small matrices *)

Lemma det_2x2 (a b c d : Q) : det [[a; b]; [c; d]] == a * d - b * c.
Proof. arith_only. ring. Qed.

Lemma det_3x3 (a b c d e f g h i : Q) :
  det [[a; b; c]; [d; e; f]; [g; h; i]] ==
  a * (e * i - f * h) - b * (d * i - f * g) + c * (d * h - e * g).
Proof. arith_only. ring. Qed.

Lemma det_scale_first_row (k a b c d : Q) :
  det [[k * a; k * b]; [c; d]] == k * det [[a; b]; [c; d]].
Proof. arith_only. ring. Qed.

(** X1: degree 1: for every 2x2 node array and query point, [evaluate]
    returns the determinant of the 2x2 matrix of the (node - query)
    coordinates, [[x0 - x, x1 - x], [y0 - y, y1 - y]]. *)
Lemma evaluate_degree1_determinant (x0 y0 x1 y1 x y : Q) :
  yields (evaluate [(x0, y0); (x1, y1)] x y)
         (det [[x0 - x; x1 - x]; [y0 - y; y1 - y]]).
Proof.
  eexists. split; [reflexivity |].
  arith_only. ring.
Qed.

(** ** Curve evaluation: de Casteljau agrees with the Bernstein form *)

Lemma de_casteljau_position (nodes : nodes_t) (t : Q) :
  (2 <= length nodes <= 4)%nat ->
  fst (de_casteljau nodes t) == fst (position nodes t) /\
  snd (de_casteljau nodes t) == snd (position nodes t).
Proof.
  intros H.
  destruct (rows_2_to_4 nodes H)
    as [(p0 & p1 & ->) | [(p0 & p1 & p2 & ->) | (p0 & p1 & p2 & p3 & ->)]];
    split; arith_only; ring.
Qed.

Lemma position_endpoints (p q : Q * Q) :
  fst (position [p; q] 0) == fst p /\ snd (position [p; q] 0) == snd p /\
  fst (position [p; q] 1) == fst q /\ snd (position [p; q] 1) == snd q.
Proof. repeat split; arith_only; ring. Qed.

(** ** Which calls return *)

Lemma evaluate_returns (nodes : nodes_t) (x y : Q) :
  (2 <= length nodes <= 4)%nat -> returns (evaluate nodes x y).
Proof.
  intros H.
  destruct (rows_2_to_4 nodes H) as [(p0 & p1 & ->) | [(p0 & p1 & p2 & ->) |
                                      (p0 & p1 & p2 & p3 & ->)]];
    unfold evaluate; simpl; eexists; reflexivity.
Qed.

Lemma evaluate_multi_one (nodes : nodes_t) (t : Q) :
  evaluate_multi nodes [t] = [position nodes t].
Proof. reflexivity. Qed.

Lemma eval_intersection_polynomial_unfold (nodes1 nodes2 : nodes_t) (t : Q) :
  eval_intersection_polynomial nodes1 nodes2 t =
  evaluate nodes1 (fst (position nodes2 t)) (snd (position nodes2 t)).
Proof.
  unfold eval_intersection_polynomial.
  rewrite evaluate_multi_one.
  destruct (position nodes2 t) as [x_val y_val]. reflexivity.
Qed.

Lemma eval_intersection_polynomial_returns (nodes1 nodes2 : nodes_t) (t : Q) :
  (2 <= length nodes1 <= 4)%nat ->
  returns (eval_intersection_polynomial nodes1 nodes2 t).
Proof.
  intros H. rewrite eval_intersection_polynomial_unfold.
  apply evaluate_returns, H.
Qed.

(** ** Degree 2: the closed form is the Sylvester determinant *)

(** C5: for every 3x2 node array and query point, the closed-form sequence
    computed by [evaluate] -- with a, b, c = (x0-x, 2(x1-x), x2-x),
    d, e, f = (y0-y, 2(y1-y), y2-y), sub1 = b f - c e, sub2 = a f - c d and
    result = a (-e sub1 + f sub2) + d (b sub1 - c sub2) -- is what
    [evaluate] returns, and it equals the determinant of the 4x4 modified
    Sylvester matrix with rows [a,b,c,0], [0,a,b,c], [d,e,f,0], [0,d,e,f]. *)
Theorem evaluate_degree2_sylvester (x0 y0 x1 y1 x2 y2 x y : Q) :
  let a := x0 - x in
  let b := 2 * (x1 - x) in
  let c := x2 - x in
  let d := y0 - y in
  let e := 2 * (y1 - y) in
  let f := y2 - y in
  let sub1 := b * f - c * e in
  let sub2 := a * f - c * d in
  let closed_form := a * (- e * sub1 + f * sub2) + d * (b * sub1 - c * sub2) in
  yields (evaluate [(x0, y0); (x1, y1); (x2, y2)] x y) closed_form /\
  closed_form == det (modified_sylvester4 a b c d e f).
Proof.
  cbv zeta. split.
  - eexists. split; [reflexivity |].
    unfold col0, col1; simpl. ring.
  - arith_only. ring.
Qed.

(** ** Degree 3: the matrix whose determinant is taken *)

Lemma _evaluate3_sylvester6 (p0 p1 p2 p3 : Q * Q) (x y : Q) :
  _evaluate3 [p0; p1; p2; p3] x y =
  det (sylvester6 (fst p0 - x, snd p0 - y)
                  ((fst p1 - x) * 3, (snd p1 - y) * 3)
                  ((fst p2 - x) * 3, (snd p2 - y) * 3)
                  (fst p3 - x, snd p3 - y)).
Proof. reflexivity. Qed.

Lemma spec_sylvester6_written_out (p0 p1 p2 p3 : Q * Q) (x y : Q) :
  spec_sylvester6 [p0; p1; p2; p3] x y =
  sylvester6 (fst p0 - x, snd p0 - y)
             ((fst p1 - x) * 3, (snd p1 - y) * 3)
             ((fst p2 - x) * 3, (snd p2 - y) * 3)
             (fst p3 - x, snd p3 - y).
Proof. reflexivity. Qed.

(** C4: for every 4x2 node array and every query point, [evaluate] returns
    the determinant of the 6x6 matrix obtained from delta = nodes - query
    (rows 1 and 2 multiplied by 3) by placing delta at rows 0-3 of columns
    0-1, rows 1-4 of columns 2-3 and rows 2-5 of columns 4-5 of an
    otherwise zero matrix. *)
Theorem evaluate_degree3_determinant (p0 p1 p2 p3 : Q * Q) (x y : Q) :
  evaluate [p0; p1; p2; p3] x y =
  inr (det (spec_sylvester6 [p0; p1; p2; p3] x y)).
Proof.
  change (evaluate [p0; p1; p2; p3] x y)
    with (@inr exn Q (_evaluate3 [p0; p1; p2; p3] x y)).
  rewrite _evaluate3_sylvester6, spec_sylvester6_written_out.
  reflexivity.
Qed.

Example spec_sylvester6_example :
  spec_sylvester6 [(1, 2); (3, 4); (5, 6); (7, 8)] 0 0 =
  [[1 - 0; 2 - 0; 0; 0; 0; 0];
   [(3 - 0) * 3; (4 - 0) * 3; 1 - 0; 2 - 0; 0; 0];
   [(5 - 0) * 3; (6 - 0) * 3; (3 - 0) * 3; (4 - 0) * 3; 1 - 0; 2 - 0];
   [7 - 0; 8 - 0; (5 - 0) * 3; (6 - 0) * 3; (3 - 0) * 3; (4 - 0) * 3];
   [0; 0; 7 - 0; 8 - 0; (5 - 0) * 3; (6 - 0) * 3];
   [0; 0; 0; 0; 7 - 0; 8 - 0]].
Proof. reflexivity. Qed.

(** ** Degree 3: the determinant vanishes on the curve

    With [v_k = (1-s)^(5-k) s^k], the combination [sum_k v_k row_k] of the
    rows of the matrix has the entries [(1-s)^2 A], [(1-s)^2 B],
    [(1-s) s A], [(1-s) s B], [s^2 A], [s^2 B], where [A] and [B] are the
    two cubics whose coefficients fill the matrix.  Hence [v_k * det m] is
    the expansion of that combination along row [k], and since
    [sum_k C(5,k) v_k = 1] the determinant itself is a combination of [A]
    and [B]. *)

Lemma sylvester6_kernel_identity (a0 b0 a1 b1 a2 b2 a3 b3 s : Q) :
  let m := sylvester6 (a0, b0) (a1, b1) (a2, b2) (a3, b3) in
  det m ==
  cubic_form a0 a1 a2 a3 s *
    (qpow (1 - s) 2 * kernel_weight m 0 +
     (1 - s) * s * kernel_weight m 2 +
     qpow s 2 * kernel_weight m 4) +
  cubic_form b0 b1 b2 b3 s *
    (qpow (1 - s) 2 * kernel_weight m 1 +
     (1 - s) * s * kernel_weight m 3 +
     qpow s 2 * kernel_weight m 5).
Proof. arith_only. ring. Qed.

Lemma sylvester6_common_root (a0 b0 a1 b1 a2 b2 a3 b3 s : Q) :
  cubic_form a0 a1 a2 a3 s == 0 ->
  cubic_form b0 b1 b2 b3 s == 0 ->
  det (sylvester6 (a0, b0) (a1, b1) (a2, b2) (a3, b3)) == 0.
Proof.
  intros HA HB.
  pose proof (sylvester6_kernel_identity a0 b0 a1 b1 a2 b2 a3 b3 s) as Hid.
  cbv zeta in Hid.
  etransitivity; [exact Hid |].
  etransitivity.
  - apply Qplus_comp; (apply Qmult_comp; [eassumption | reflexivity]).
  - ring.
Qed.

Lemma position_cubic (x0 y0 x1 y1 x2 y2 x3 y3 t : Q) :
  let p := position [(x0, y0); (x1, y1); (x2, y2); (x3, y3)] t in
  fst p == cubic_form x0 (3 * x1) (3 * x2) x3 t /\
  snd p == cubic_form y0 (3 * y1) (3 * y2) y3 t.
Proof. cbv zeta. split; arith_only; ring. Qed.

Lemma evaluate_vanishes_degree1 (p0 p1 : Q * Q) (t : Q) :
  let p := position [p0; p1] t in
  yields (evaluate [p0; p1] (fst p) (snd p)) 0.
Proof.
  destruct p0 as [x0 y0], p1 as [x1 y1]. cbv zeta.
  eexists. split; [reflexivity |].
  arith_only. ring.
Qed.

Lemma evaluate_vanishes_degree2 (p0 p1 p2 : Q * Q) (t : Q) :
  let p := position [p0; p1; p2] t in
  yields (evaluate [p0; p1; p2] (fst p) (snd p)) 0.
Proof.
  destruct p0 as [x0 y0], p1 as [x1 y1], p2 as [x2 y2]. cbv zeta.
  eexists. split; [reflexivity |].
  arith_only. ring.
Qed.

Lemma evaluate_vanishes_degree3 (p0 p1 p2 p3 : Q * Q) (t : Q) :
  let p := position [p0; p1; p2; p3] t in
  yields (evaluate [p0; p1; p2; p3] (fst p) (snd p)) 0.
Proof.
  destruct p0 as [x0 y0], p1 as [x1 y1], p2 as [x2 y2], p3 as [x3 y3].
  cbv zeta.
  destruct (position_cubic x0 y0 x1 y1 x2 y2 x3 y3 t) as [Hx Hy].
  cbv zeta in Hx, Hy.
  destruct (position [(x0, y0); (x1, y1); (x2, y2); (x3, y3)] t) as [x y].
  simpl fst in *; simpl snd in *.
  eexists. split.
  - change (evaluate [(x0, y0); (x1, y1); (x2, y2); (x3, y3)] x y)
      with (@inr exn Q (_evaluate3 [(x0, y0); (x1, y1); (x2, y2); (x3, y3)]
                                   x y)).
    reflexivity.
  - rewrite _evaluate3_sylvester6. simpl fst; simpl snd.
    apply (sylvester6_common_root _ _ _ _ _ _ _ _ t);
      unfold cubic_form in *; simpl qpow in *.
    + rewrite Hx. ring.
    + rewrite Hy. ring.
Qed.

(** C1: for every curve whose node array has N rows with N in {2,3,4}
    (degree 1, 2 or 3) and every parameter t -- in particular every t in
    [0,1] -- the implicit polynomial vanishes at the curve's own position:
    evaluate(nodes, x(t), y(t)) returns a value equal to 0, where
    (x(t), y(t)) is the Bernstein-basis evaluation of the same nodes at t. *)
Theorem evaluate_vanishes_on_curve (nodes : nodes_t) (t : Q) :
  (2 <= length nodes <= 4)%nat ->
  yields (evaluate nodes (fst (position nodes t)) (snd (position nodes t))) 0.
Proof.
  intros H.
  destruct (rows_2_to_4 nodes H) as [(p0 & p1 & ->) | [(p0 & p1 & p2 & ->) |
                                      (p0 & p1 & p2 & p3 & ->)]].
  - apply evaluate_vanishes_degree1.
  - apply evaluate_vanishes_degree2.
  - apply evaluate_vanishes_degree3.
Qed.

Lemma evaluate_vanishes_on_curve_witness :
  yields (evaluate [(0, 0); (1, 2); (3, 1); (4, 4)]
                   (fst (position [(0, 0); (1, 2); (3, 1); (4, 4)] (1 # 3)))
                   (snd (position [(0, 0); (1, 2); (3, 1); (4, 4)] (1 # 3)))) 0.
Proof.
  apply (evaluate_vanishes_on_curve [(0, 0); (1, 2); (3, 1); (4, 4)] (1 # 3)).
  simpl; lia.
Defined.

(** ** Translation invariance *)

Lemma sylvester6_eq (d0 d1 d2 d3 e0 e1 e2 e3 : Q * Q) :
  fst d0 == fst e0 -> snd d0 == snd e0 ->
  fst d1 == fst e1 -> snd d1 == snd e1 ->
  fst d2 == fst e2 -> snd d2 == snd e2 ->
  fst d3 == fst e3 -> snd d3 == snd e3 ->
  mat_eq (sylvester6 d0 d1 d2 d3) (sylvester6 e0 e1 e2 e3).
Proof.
  intros. unfold sylvester6, mat_eq.
  repeat (apply Forall2_cons || apply Forall2_nil); solve [assumption | reflexivity].
Qed.

(** C10: [evaluate] is translation-invariant: for every node array with
    N in {2,3,4} rows, every query point (x, y) and every offset (dx, dy),
    evaluating the nodes shifted by (dx, dy) at (x + dx, y + dy) returns
    the same value as evaluating the nodes at (x, y). *)
Theorem evaluate_translation_invariant (nodes : nodes_t) (x y dx dy : Q) :
  (2 <= length nodes <= 4)%nat ->
  exists v v',
    evaluate nodes x y = inr v /\
    evaluate (translate dx dy nodes) (x + dx) (y + dy) = inr v' /\
    v' == v.
Proof.
  intros H.
  destruct (rows_2_to_4 nodes H) as [(p0 & p1 & ->) | [(p0 & p1 & p2 & ->) |
                                      (p0 & p1 & p2 & p3 & ->)]].
  - do 2 eexists. split; [reflexivity |]. split; [reflexivity |].
    unfold col0, col1; simpl. ring.
  - do 2 eexists. split; [reflexivity |]. split; [reflexivity |].
    unfold col0, col1; simpl. ring.
  - exists (_evaluate3 [p0; p1; p2; p3] x y),
           (_evaluate3 (translate dx dy [p0; p1; p2; p3]) (x + dx) (y + dy)).
    split; [reflexivity |]. split; [reflexivity |].
    simpl translate.
    rewrite !_evaluate3_sylvester6.
    apply det_eq, sylvester6_eq; simpl; ring.
Qed.

Lemma evaluate_translation_invariant_witness :
  exists v v',
    evaluate [(0, 0); (1, 2); (3, 1)] 1 1 = inr v /\
    evaluate (translate 5 (-2) [(0, 0); (1, 2); (3, 1)]) (1 + 5) (1 + -2) = inr v' /\
    v' == v.
Proof.
  apply (evaluate_translation_invariant [(0, 0); (1, 2); (3, 1)] 1 1 5 (-2)).
  simpl; lia.
Defined.

(** ** Errors of the implicit evaluator *)

(** C7, as amended: [evaluate] raises exactly when the node count N is not
    2, 3 or 4.  With N = 1 it raises ValueError("A point cannot be
    implicitized"); with N = 0 or N > 4 it raises NotImplementedError with
    the fixed message "Only degrees 1 and 2 supported", which carries no
    degree; with N in {2,3,4} it returns. *)
Theorem evaluate_errors (nodes : nodes_t) (x y : Q) :
  match length nodes with
  | 1%nat =>
      evaluate nodes x y =
      inl (ValueError [Str "A point cannot be implicitized"%string])
  | 2%nat | 3%nat | 4%nat => returns (evaluate nodes x y)
  | _ =>
      evaluate nodes x y =
      inl (NotImplementedError [Str "Only degrees 1 and 2 supported"%string])
  end.
Proof.
  destruct nodes as [| p0 [| p1 [| p2 [| p3 [| p4 rest]]]]]; simpl length;
    try reflexivity; unfold evaluate; simpl; eexists; reflexivity.
Qed.

(** C7, as stated, fails: an empty node array (N = 0, neither 1 nor greater
    than 4) raises, and the error raised for five nodes (degree 4) is the
    very error raised for six nodes (degree 5): it names neither degree. *)
Lemma evaluate_error_is_fixed :
  (raises (evaluate [] 0 0) /\
   @length (Q * Q) [] <> 1%nat /\ ~ (@length (Q * Q) [] > 4)%nat) /\
  (exists e,
      evaluate [(0, 0); (1, 1); (2, 0); (3, 1); (4, 0)] 0 0 = inl e /\
      evaluate [(0, 0); (1, 1); (2, 0); (3, 1); (4, 0); (5, 1)] 0 0 = inl e /\
      ~ names_degree e 4 /\ ~ names_degree e 5).
Proof.
  split.
  - split; [eexists; reflexivity | simpl; lia].
  - eexists. split; [reflexivity |]. split; [reflexivity |].
    unfold names_degree; simpl.
    split; intros [H | []]; discriminate H.
Qed.

(** ** Errors of the power-basis converter *)

Lemma supported_pair_cases (nodes1 nodes2 : nodes_t) :
  supported_pair (degree nodes1) (degree nodes2) = true ->
  (length nodes1 = 2 /\ length nodes2 = 2)%nat \/
  (length nodes1 = 2 /\ length nodes2 = 3)%nat \/
  (length nodes1 = 2 /\ length nodes2 = 4)%nat \/
  (length nodes1 = 3 /\ length nodes2 = 3)%nat.
Proof.
  unfold supported_pair, degree; cbn [existsb fst snd].
  rewrite !Bool.orb_true_iff, !Bool.andb_true_iff, !Z.eqb_eq.
  lia.
Qed.

Lemma unsupported_pair_cases (nodes1 nodes2 : nodes_t) :
  supported_pair (degree nodes1) (degree nodes2) = false ->
  ~ ((length nodes1 = 2 /\ length nodes2 = 2)%nat \/
     (length nodes1 = 2 /\ length nodes2 = 3)%nat \/
     (length nodes1 = 2 /\ length nodes2 = 4)%nat \/
     (length nodes1 = 3 /\ length nodes2 = 3)%nat).
Proof.
  intros Hf Hc.
  assert (Ht : supported_pair (degree nodes1) (degree nodes2) = true).
  { unfold supported_pair, degree; cbn [existsb fst snd].
    rewrite !Bool.orb_true_iff, !Bool.andb_true_iff, !Z.eqb_eq. lia. }
  congruence.
Qed.

Section Converters.

Variables nodes1 nodes2 : nodes_t.

(** The first curve can be implicitized, so that every sample returns. *)
Hypothesis implicitizable : (2 <= length nodes1 <= 4)%nat.

Lemma sample_returns (t : Q) :
  returns (eval_intersection_polynomial nodes1 nodes2 t).
Proof. apply eval_intersection_polynomial_returns, implicitizable. Qed.

Lemma _to_power_basis11_spec :
  exists val0 val1,
    eval_intersection_polynomial nodes1 nodes2 0 = inr val0 /\
    eval_intersection_polynomial nodes1 nodes2 1 = inr val1 /\
    _to_power_basis11 nodes1 nodes2 = inr [val0; - val0 + val1].
Proof.
  destruct (sample_returns 0) as [val0 E0], (sample_returns 1) as [val1 E1].
  exists val0, val1. repeat split; try assumption.
  unfold _to_power_basis11.
  rewrite E0, E1. reflexivity.
Qed.

Lemma _to_power_basis12_spec :
  exists val0 val1 val2,
    eval_intersection_polynomial nodes1 nodes2 0 = inr val0 /\
    eval_intersection_polynomial nodes1 nodes2 0.5 = inr val1 /\
    eval_intersection_polynomial nodes1 nodes2 1 = inr val2 /\
    _to_power_basis12 nodes1 nodes2 =
    inr [val0; -3 * val0 + 4 * val1 - val2; 2 * val0 - 4 * val1 + 2 * val2].
Proof.
  destruct (sample_returns 0) as [val0 E0], (sample_returns 0.5) as [val1 E1],
           (sample_returns 1) as [val2 E2].
  exists val0, val1, val2. repeat split; try assumption.
  unfold _to_power_basis12.
  rewrite E0, E1, E2. reflexivity.
Qed.

Lemma _to_power_basis13_spec :
  exists val0 val1 val2 val3,
    eval_intersection_polynomial nodes1 nodes2 0 = inr val0 /\
    eval_intersection_polynomial nodes1 nodes2 0.25 = inr val1 /\
    eval_intersection_polynomial nodes1 nodes2 0.75 = inr val2 /\
    eval_intersection_polynomial nodes1 nodes2 1 = inr val3 /\
    _to_power_basis13 nodes1 nodes2 =
    inr [3 * val0;
         -19 * val0 + 24 * val1 - 8 * val2 + 3 * val3;
         32 * val0 - 56 * val1 + 40 * val2 - 16 * val3;
         -16 * val0 + 32 * val1 - 32 * val2 + 16 * val3].
Proof.
  destruct (sample_returns 0) as [val0 E0], (sample_returns 0.25) as [val1 E1],
           (sample_returns 0.75) as [val2 E2], (sample_returns 1) as [val3 E3].
  exists val0, val1, val2, val3. repeat split; try assumption.
  unfold _to_power_basis13.
  rewrite E0, E1, E2, E3. reflexivity.
Qed.

Lemma _to_power_basis22_spec :
  exists val0 val1 val2 val3 val4,
    eval_intersection_polynomial nodes1 nodes2 0 = inr val0 /\
    eval_intersection_polynomial nodes1 nodes2 0.25 = inr val1 /\
    eval_intersection_polynomial nodes1 nodes2 0.5 = inr val2 /\
    eval_intersection_polynomial nodes1 nodes2 0.75 = inr val3 /\
    eval_intersection_polynomial nodes1 nodes2 1 = inr val4 /\
    _to_power_basis22 nodes1 nodes2 =
    inr [3 * val0;
         -25 * val0 + 48 * val1 - 36 * val2 + 16 * val3 - 3 * val4;
         70 * val0 - 208 * val1 + 228 * val2 - 112 * val3 + 22 * val4;
         -80 * val0 + 288 * val1 - 384 * val2 + 224 * val3 - 48 * val4;
         32 * val0 - 128 * val1 + 192 * val2 - 128 * val3 + 32 * val4].
Proof.
  destruct (sample_returns 0) as [val0 E0], (sample_returns 0.25) as [val1 E1],
           (sample_returns 0.5) as [val2 E2], (sample_returns 0.75) as [val3 E3],
           (sample_returns 1) as [val4 E4].
  exists val0, val1, val2, val3, val4. repeat split; try assumption.
  unfold _to_power_basis22.
  rewrite E0, E1, E2, E3, E4. reflexivity.
Qed.

End Converters.

Lemma to_power_basis_dispatch (nodes1 nodes2 : nodes_t) :
  to_power_basis nodes1 nodes2 =
  match length nodes1, length nodes2 with
  | 2%nat, 2%nat => _to_power_basis11 nodes1 nodes2
  | 2%nat, 3%nat => _to_power_basis12 nodes1 nodes2
  | 2%nat, 4%nat => _to_power_basis13 nodes1 nodes2
  | 3%nat, 3%nat => _to_power_basis22 nodes1 nodes2
  | _, _ =>
      inl (NotImplementedError
             [Str "Degree 1"%string; Int (degree nodes1);
              Str "Degree2"%string; Int (degree nodes2);
              Str "Currently only supporting degree pairs 1-1, 1-2, 1-3 and 2-2"%string])
  end.
Proof.
  unfold to_power_basis, degree, raise.
  destruct (length nodes1) as [| [| [| [| n1]]]];
    destruct (length nodes2) as [| [| [| [| [| n2]]]]]; reflexivity.
Qed.

(** C8: [to_power_basis] raises a NotImplementedError whose arguments
    enumerate the offending degree pair for every degree pair outside
    {(1,1), (1,2), (1,3), (2,2)} -- in particular for the reversed pair
    (2,1) -- and raises no error for the four supported pairs. *)
Theorem to_power_basis_errors (nodes1 nodes2 : nodes_t) :
  let d1 := degree nodes1 in
  let d2 := degree nodes2 in
  let err :=
    NotImplementedError
      [Str "Degree 1"%string; Int d1; Str "Degree2"%string; Int d2;
       Str "Currently only supporting degree pairs 1-1, 1-2, 1-3 and 2-2"%string] in
  (if supported_pair d1 d2
   then returns (to_power_basis nodes1 nodes2)
   else to_power_basis nodes1 nodes2 = inl err) /\
  supported_pair 2 1 = false /\
  In (Int d1) (exn_args err) /\ In (Int d2) (exn_args err).
Proof.
  cbv zeta. split; [| split; [reflexivity | simpl; auto 6]].
  destruct (supported_pair (degree nodes1) (degree nodes2)) eqn:Hs.
  - rewrite to_power_basis_dispatch.
    destruct (supported_pair_cases _ _ Hs) as [[E1 E2] | [[E1 E2] | [[E1 E2] | [E1 E2]]]];
      assert (Hi : (2 <= length nodes1 <= 4)%nat) by lia;
      rewrite E1, E2.
    + destruct (_to_power_basis11_spec nodes1 nodes2 Hi) as (? & ? & _ & _ & ->).
      eexists; reflexivity.
    + destruct (_to_power_basis12_spec nodes1 nodes2 Hi) as (? & ? & ? & _ & _ & _ & ->).
      eexists; reflexivity.
    + destruct (_to_power_basis13_spec nodes1 nodes2 Hi)
        as (? & ? & ? & ? & _ & _ & _ & _ & ->).
      eexists; reflexivity.
    + destruct (_to_power_basis22_spec nodes1 nodes2 Hi)
        as (? & ? & ? & ? & ? & _ & _ & _ & _ & _ & ->).
      eexists; reflexivity.
  - pose proof (unsupported_pair_cases _ _ Hs) as Hn.
    rewrite to_power_basis_dispatch.
    destruct (length nodes1) as [| [| [| [| n1]]]];
      destruct (length nodes2) as [| [| [| [| [| n2]]]]];
      try reflexivity; exfalso; apply Hn; lia.
Qed.

Example to_power_basis_reversed :
  to_power_basis [(0, 0); (1, 1); (2, 0)] [(0, 1); (1, 0)] =
  inl (NotImplementedError
         [Str "Degree 1"%string; Int 2; Str "Degree2"%string; Int 1;
          Str "Currently only supporting degree pairs 1-1, 1-2, 1-3 and 2-2"%string]).
Proof. reflexivity. Qed.

(** ** Interpolation at the sample parameters *)

(** C2, as amended: for every supported degree pair, Horner evaluation of
    the coefficient array returned by [to_power_basis] at each of that
    pair's sample parameters equals the sampled value
    eval_intersection_polynomial(nodes1, nodes2, t) for the pairs 1-1 and
    1-2, and three times the sampled value for the pairs 1-3 and 2-2. *)
Theorem to_power_basis_interpolates (nodes1 nodes2 : nodes_t) :
  supported_pair (degree nodes1) (degree nodes2) = true ->
  exists coeffs,
    to_power_basis nodes1 nodes2 = inr coeffs /\
    Forall (fun t =>
              exists v,
                eval_intersection_polynomial nodes1 nodes2 t = inr v /\
                horner coeffs t ==
                scale_factor (degree nodes1) (degree nodes2) * v)
           (sample_points (degree nodes1) (degree nodes2)).
Proof.
  intros Hs. rewrite to_power_basis_dispatch. unfold degree.
  destruct (supported_pair_cases _ _ Hs) as [[E1 E2] | [[E1 E2] | [[E1 E2] | [E1 E2]]]];
    assert (Hi : (2 <= length nodes1 <= 4)%nat) by lia;
    rewrite E1, E2; simpl sample_points; simpl scale_factor.
  - destruct (_to_power_basis11_spec nodes1 nodes2 Hi) as (v0 & v1 & E0 & E1' & ->).
    eexists. split; [reflexivity |].
    repeat apply Forall_cons; try apply Forall_nil;
      eexists; (split; [eassumption |]); unfold horner; simpl; ring.
  - destruct (_to_power_basis12_spec nodes1 nodes2 Hi)
      as (v0 & v1 & v2 & E0 & E1' & E2' & ->).
    eexists. split; [reflexivity |].
    repeat apply Forall_cons; try apply Forall_nil;
      eexists; (split; [eassumption |]); unfold horner; simpl; ring.
  - destruct (_to_power_basis13_spec nodes1 nodes2 Hi)
      as (v0 & v1 & v2 & v3 & E0 & E1' & E2' & E3' & ->).
    eexists. split; [reflexivity |].
    repeat apply Forall_cons; try apply Forall_nil;
      eexists; (split; [eassumption |]); unfold horner; simpl; ring.
  - destruct (_to_power_basis22_spec nodes1 nodes2 Hi)
      as (v0 & v1 & v2 & v3 & v4 & E0 & E1' & E2' & E3' & E4' & ->).
    eexists. split; [reflexivity |].
    repeat apply Forall_cons; try apply Forall_nil;
      eexists; (split; [eassumption |]); unfold horner; simpl; ring.
Qed.

Lemma to_power_basis_interpolates_witness :
  exists coeffs,
    to_power_basis [(0, 0); (1, 1)] [(0, 1); (1, 0); (3, 5); (2, 2)] = inr coeffs /\
    Forall (fun t =>
              exists v,
                eval_intersection_polynomial
                  [(0, 0); (1, 1)] [(0, 1); (1, 0); (3, 5); (2, 2)] t = inr v /\
                horner coeffs t == 3 * v)
           [0; 0.25; 0.75; 1].
Proof.
  apply (to_power_basis_interpolates
           [(0, 0); (1, 1)] [(0, 1); (1, 0); (3, 5); (2, 2)]).
  reflexivity.
Defined.

(** C2, as stated, fails for the pair 1-3: at the sample parameter t = 0
    the returned coefficients evaluate to 3, the sampled value is 1. *)
Lemma to_power_basis13_not_exact :
  exists coeffs v,
    to_power_basis [(0, 0); (1, 1)] [(0, 1); (1, 0); (3, 5); (2, 2)] = inr coeffs /\
    In 0 (sample_points 1 3) /\
    eval_intersection_polynomial
      [(0, 0); (1, 1)] [(0, 1); (1, 0); (3, 5); (2, 2)] 0 = inr v /\
    horner coeffs 0 == 3 /\ v == 1 /\
    ~ horner coeffs 0 == v.
Proof.
  do 2 eexists.
  split; [vm_compute; reflexivity |].
  split; [left; reflexivity |].
  split; [vm_compute; reflexivity |].
  split; [reflexivity |].
  split; [reflexivity |].
  intros H. vm_compute in H. discriminate H.
Qed.

(** ** The pairs 1-3 and 2-2: three times the intersection polynomial *)

Lemma horner_third (coeffs : list Q) (t : Q) :
  horner (map (fun c => c / 3) coeffs) t == horner coeffs t / 3.
Proof.
  unfold horner.
  induction coeffs as [| c coeffs IH]; simpl.
  - field.
  - rewrite IH. field.
Qed.

Lemma three_times_third (coeffs : list Q) :
  Forall2 (fun c k => c == 3 * k) coeffs (map (fun c => c / 3) coeffs).
Proof.
  induction coeffs as [| c coeffs IH]; simpl; constructor.
  - field.
  - exact IH.
Qed.

Lemma to_power_basis13_everywhere (p0 p1 q0 q1 q2 q3 : Q * Q) :
  exists coeffs,
    to_power_basis [p0; p1] [q0; q1; q2; q3] = inr coeffs /\
    forall t, exists v,
      eval_intersection_polynomial [p0; p1] [q0; q1; q2; q3] t = inr v /\
      horner coeffs t == 3 * v.
Proof.
  destruct p0 as [x0 y0], p1 as [x1 y1].
  destruct q0 as [u0 v0], q1 as [u1 v1], q2 as [u2 v2], q3 as [u3 v3].
  eexists. split.
  - arith_only. reflexivity.
  - intros t. eexists. split.
    + arith_only. reflexivity.
    + arith_only. ring.
Qed.

Lemma to_power_basis22_everywhere (p0 p1 p2 q0 q1 q2 : Q * Q) :
  exists coeffs,
    to_power_basis [p0; p1; p2] [q0; q1; q2] = inr coeffs /\
    forall t, exists v,
      eval_intersection_polynomial [p0; p1; p2] [q0; q1; q2] t = inr v /\
      horner coeffs t == 3 * v.
Proof.
  destruct p0 as [x0 y0], p1 as [x1 y1], p2 as [x2 y2].
  destruct q0 as [u0 v0], q1 as [u1 v1], q2 as [u2 v2].
  eexists. split.
  - arith_only. reflexivity.
  - intros t. eexists. split.
    + arith_only. reflexivity.
    + arith_only. ring.
Qed.

(** The interpolation matrices recover three times the coefficients of any
    polynomial of the right degree from its values at the sample
    parameters. *)
Lemma cubic_coefficients (k0 k1 k2 k3 val0 val1 val2 val3 : Q) :
  val0 == horner [k0; k1; k2; k3] 0 ->
  val1 == horner [k0; k1; k2; k3] 0.25 ->
  val2 == horner [k0; k1; k2; k3] 0.75 ->
  val3 == horner [k0; k1; k2; k3] 1 ->
  Forall2 (fun c k => c == 3 * k)
          [3 * val0;
           -19 * val0 + 24 * val1 - 8 * val2 + 3 * val3;
           32 * val0 - 56 * val1 + 40 * val2 - 16 * val3;
           -16 * val0 + 32 * val1 - 32 * val2 + 16 * val3]
          [k0; k1; k2; k3].
Proof.
  unfold horner; simpl. intros H0 H1 H2 H3.
  repeat apply Forall2_cons; try apply Forall2_nil;
    rewrite ?H0, ?H1, ?H2, ?H3; field.
Qed.

Lemma quartic_coefficients (k0 k1 k2 k3 k4 val0 val1 val2 val3 val4 : Q) :
  val0 == horner [k0; k1; k2; k3; k4] 0 ->
  val1 == horner [k0; k1; k2; k3; k4] 0.25 ->
  val2 == horner [k0; k1; k2; k3; k4] 0.5 ->
  val3 == horner [k0; k1; k2; k3; k4] 0.75 ->
  val4 == horner [k0; k1; k2; k3; k4] 1 ->
  Forall2 (fun c k => c == 3 * k)
          [3 * val0;
           -25 * val0 + 48 * val1 - 36 * val2 + 16 * val3 - 3 * val4;
           70 * val0 - 208 * val1 + 228 * val2 - 112 * val3 + 22 * val4;
           -80 * val0 + 288 * val1 - 384 * val2 + 224 * val3 - 48 * val4;
           32 * val0 - 128 * val1 + 192 * val2 - 128 * val3 + 32 * val4]
          [k0; k1; k2; k3; k4].
Proof.
  unfold horner; simpl. intros H0 H1 H2 H3 H4.
  repeat apply Forall2_cons; try apply Forall2_nil;
    rewrite ?H0, ?H1, ?H2, ?H3, ?H4; field.
Qed.

Lemma yields_inr (m : result Q) (v q : Q) : m = inr v -> yields m q -> v == q.
Proof.
  intros E (w & Ew & Hw). rewrite E in Ew. injection Ew as <-. exact Hw.
Qed.

Lemma true_coefficients_unique (nodes1 nodes2 : nodes_t) (coeffs ks : list Q) :
  (degree nodes1 = 1 /\ degree nodes2 = 3)%Z \/
  (degree nodes1 = 2 /\ degree nodes2 = 2)%Z ->
  to_power_basis nodes1 nodes2 = inr coeffs ->
  length ks = length coeffs ->
  (forall t, yields (eval_intersection_polynomial nodes1 nodes2 t) (horner ks t)) ->
  Forall2 (fun c k => c == 3 * k) coeffs ks.
Proof.
  intros Hd Hc Hlen Hks.
  rewrite to_power_basis_dispatch in Hc. unfold degree in Hd.
  assert (Hi : (2 <= length nodes1 <= 4)%nat) by lia.
  destruct Hd as [[D1 D2] | [D1 D2]].
  - replace (length nodes1) with 2%nat in Hc by lia.
    replace (length nodes2) with 4%nat in Hc by lia.
    destruct (_to_power_basis13_spec nodes1 nodes2 Hi)
      as (v0 & v1 & v2 & v3 & E0 & E1 & E2 & E3 & E).
    rewrite E in Hc. injection Hc as <-.
    destruct ks as [| k0 [| k1 [| k2 [| k3 [| k4 ks]]]]]; try discriminate Hlen.
    apply cubic_coefficients; eapply yields_inr; eauto.
  - replace (length nodes1) with 3%nat in Hc by lia.
    replace (length nodes2) with 3%nat in Hc by lia.
    destruct (_to_power_basis22_spec nodes1 nodes2 Hi)
      as (v0 & v1 & v2 & v3 & v4 & E0 & E1 & E2 & E3 & E4 & E).
    rewrite E in Hc. injection Hc as <-.
    destruct ks as [| k0 [| k1 [| k2 [| k3 [| k4 [| k5 ks]]]]]];
      try discriminate Hlen.
    apply quartic_coefficients; eapply yields_inr; eauto.
Qed.

(** C3: for the degree pairs 1-3 and 2-2 the coefficient array returned by
    [to_power_basis] is exactly three times the power-basis coefficients
    of the intersection polynomial: Horner evaluation of the returned
    coefficients at any t equals 3 * eval_intersection_polynomial(nodes1,
    nodes2, t), every coefficient array of the same length that represents
    the intersection polynomial is a third of the returned one, entry by
    entry, and the returned polynomial has the same roots as the
    intersection polynomial. *)
Theorem to_power_basis_three_times (nodes1 nodes2 : nodes_t) :
  (degree nodes1 = 1 /\ degree nodes2 = 3)%Z \/
  (degree nodes1 = 2 /\ degree nodes2 = 2)%Z ->
  exists coeffs true_coeffs,
    to_power_basis nodes1 nodes2 = inr coeffs /\
    Forall2 (fun c k => c == 3 * k) coeffs true_coeffs /\
    (forall t, exists v,
        eval_intersection_polynomial nodes1 nodes2 t = inr v /\
        horner true_coeffs t == v /\
        horner coeffs t == 3 * v /\
        (horner coeffs t == 0 <-> v == 0)) /\
    (forall ks,
        length ks = length coeffs ->
        (forall t, yields (eval_intersection_polynomial nodes1 nodes2 t)
                          (horner ks t)) ->
        Forall2 (fun c k => c == 3 * k) coeffs ks).
Proof.
  intros Hd.
  assert (Hk : exists coeffs,
             to_power_basis nodes1 nodes2 = inr coeffs /\
             forall t, exists v,
               eval_intersection_polynomial nodes1 nodes2 t = inr v /\
               horner coeffs t == 3 * v).
  { pose proof Hd as Hd'. unfold degree in Hd'.
    destruct nodes1 as [| p0 [| p1 [| p2 [| p3 r1]]]]; simpl length in Hd'; try lia;
      destruct nodes2 as [| q0 [| q1 [| q2 [| q3 [| q4 r2]]]]];
      simpl length in Hd'; try lia.
    - apply to_power_basis13_everywhere.
    - apply to_power_basis22_everywhere. }
  destruct Hk as (coeffs & Hc & Hall).
  exists coeffs, (map (fun c => c / 3) coeffs).
  split; [exact Hc |]. split; [apply three_times_third |].
  split.
  - intros t. destruct (Hall t) as (v & Hv & Hh).
    exists v. split; [exact Hv |].
    split; [rewrite horner_third, Hh; field |].
    split; [exact Hh |].
    rewrite Hh. split; intros H; lra.
  - intros ks Hlen Hks.
    apply (true_coefficients_unique nodes1 nodes2); assumption.
Qed.

Lemma to_power_basis_three_times_witness :
  exists coeffs true_coeffs,
    to_power_basis [(0, 0); (1, 1); (3, 0)] [(0, 1); (1, 0); (3, 5)] = inr coeffs /\
    Forall2 (fun c k => c == 3 * k) coeffs true_coeffs /\
    (forall t, exists v,
        eval_intersection_polynomial
          [(0, 0); (1, 1); (3, 0)] [(0, 1); (1, 0); (3, 5)] t = inr v /\
        horner true_coeffs t == v /\
        horner coeffs t == 3 * v /\
        (horner coeffs t == 0 <-> v == 0)) /\
    (forall ks,
        length ks = length coeffs ->
        (forall t, yields (eval_intersection_polynomial
                             [(0, 0); (1, 1); (3, 0)] [(0, 1); (1, 0); (3, 5)] t)
                          (horner ks t)) ->
        Forall2 (fun c k => c == 3 * k) coeffs ks).
Proof.
  apply (to_power_basis_three_times
           [(0, 0); (1, 1); (3, 0)] [(0, 1); (1, 0); (3, 5)]).
  right. split; reflexivity.
Defined.

(** ** Two crossing lines *)

(** C9: for nodes1 = [[0,0],[1,1]] and nodes2 = [[0,1],[1,0]],
    [to_power_basis] returns exactly two coefficients [c0, c1] of a
    degree-1 polynomial (c1 is not 0) whose unique root -c0/c1 is 1/2. *)
Theorem to_power_basis_crossing_lines :
  exists c0 c1,
    to_power_basis [(0, 0); (1, 1)] [(0, 1); (1, 0)] = inr [c0; c1] /\
    ~ c1 == 0 /\
    - c0 / c1 == 1 # 2 /\
    forall t, horner [c0; c1] t == 0 <-> t == 1 # 2.
Proof.
  exists 1, (-2).
  split; [vm_compute; reflexivity |].
  split; [intros H; discriminate H |].
  split; [reflexivity |].
  intros t. unfold horner; simpl. split; intros H; lra.
Qed.

(** * Further properties of the implicit evaluator *)

(** ** Degree 3: closed form and sign *)

Lemma sylvester6_bezout (a0 b0 a1 b1 a2 b2 a3 b3 : Q) :
  det (sylvester6 (a0, b0) (a1, b1) (a2, b2) (a3, b3)) ==
  det (bezout3 (a0, b0) (a1, b1) (a2, b2) (a3, b3)).
Proof. arith_only. ring. Qed.

Lemma standard_sylvester6_bezout (a0 b0 a1 b1 a2 b2 a3 b3 : Q) :
  det (standard_sylvester6 (a0, b0) (a1, b1) (a2, b2) (a3, b3)) ==
  - det (bezout3 (a0, b0) (a1, b1) (a2, b2) (a3, b3)).
Proof. arith_only. ring. Qed.

Lemma _evaluate3_bezout (x0 y0 x1 y1 x2 y2 x3 y3 x y : Q) :
  _evaluate3 [(x0, y0); (x1, y1); (x2, y2); (x3, y3)] x y ==
  det (bezout3 (x0 - x, y0 - y) ((x1 - x) * 3, (y1 - y) * 3)
               ((x2 - x) * 3, (y2 - y) * 3) (x3 - x, y3 - y)).
Proof. rewrite _evaluate3_sylvester6. apply sylvester6_bezout. Qed.

(** X2: for every 4x2 node array and query point, [evaluate] returns the
    closed form that hard-codes the determinant: the 3x3 Bezout determinant
    of the 2x2 minors [a_i b_j - a_j b_i] of the scaled rows of delta. *)
Theorem evaluate_degree3_bezout (x0 y0 x1 y1 x2 y2 x3 y3 x y : Q) :
  yields (evaluate [(x0, y0); (x1, y1); (x2, y2); (x3, y3)] x y)
         (det (bezout3 (x0 - x, y0 - y) ((x1 - x) * 3, (y1 - y) * 3)
                       ((x2 - x) * 3, (y2 - y) * 3) (x3 - x, y3 - y))).
Proof.
  exists (_evaluate3 [(x0, y0); (x1, y1); (x2, y2); (x3, y3)] x y).
  split; [reflexivity | apply _evaluate3_bezout].
Qed.

(** X3: interleaving the x- and y-columns in [_evaluate3] changes the sign:
    for every 4x2 node array, [evaluate] returns minus the determinant of
    the modified Sylvester matrix in the arrangement used for degree 2
    (three shifted rows of x-coefficients, then three of y-coefficients). *)
Theorem evaluate_degree3_standard_sylvester (x0 y0 x1 y1 x2 y2 x3 y3 x y : Q) :
  yields (evaluate [(x0, y0); (x1, y1); (x2, y2); (x3, y3)] x y)
         (- det (standard_sylvester6
                   (x0 - x, y0 - y) ((x1 - x) * 3, (y1 - y) * 3)
                   ((x2 - x) * 3, (y2 - y) * 3) (x3 - x, y3 - y))).
Proof.
  exists (_evaluate3 [(x0, y0); (x1, y1); (x2, y2); (x3, y3)] x y).
  split; [reflexivity |].
  rewrite _evaluate3_bezout, standard_sylvester6_bezout. ring.
Qed.

(** [evaluate] respects [==] in the query point. *)
Lemma evaluate_query_eq (nodes : nodes_t) (x x' y y' : Q) :
  (2 <= length nodes <= 4)%nat -> x == x' -> y == y' ->
  exists v v',
    evaluate nodes x y = inr v /\ evaluate nodes x' y' = inr v' /\ v == v'.
Proof.
  intros H Hx Hy.
  destruct (rows_2_to_4 nodes H) as [(p0 & p1 & ->) | [(p0 & p1 & p2 & ->) |
                                      (p0 & p1 & p2 & p3 & ->)]].
  - do 2 eexists. split; [reflexivity |]. split; [reflexivity |].
    unfold col0, col1; simpl. rewrite Hx, Hy. reflexivity.
  - do 2 eexists. split; [reflexivity |]. split; [reflexivity |].
    unfold col0, col1; simpl. rewrite Hx, Hy. reflexivity.
  - exists (_evaluate3 [p0; p1; p2; p3] x y), (_evaluate3 [p0; p1; p2; p3] x' y').
    split; [reflexivity |]. split; [reflexivity |].
    rewrite !_evaluate3_sylvester6.
    apply det_eq, sylvester6_eq; simpl; rewrite ?Hx, ?Hy; reflexivity.
Qed.

(** ** Degree-elevated nodes

    Elevation keeps the curve. *)
Lemma position_elevate (nodes : nodes_t) (t : Q) :
  (1 <= length nodes <= 3)%nat ->
  fst (position (elevate nodes) t) == fst (position nodes t) /\
  snd (position (elevate nodes) t) == snd (position nodes t).
Proof.
  destruct nodes as [| [x0 y0] [| [x1 y1] [| [x2 y2] [| p3 rest]]]];
    simpl length; intros H; try lia; split; arith_only; field.
Qed.

(** X4: when the nodes are degree-elevated (a curve of 1, 2 or 3 nodes
    written with one more node), [evaluate] returns 0 at every query
    point: the Sylvester determinant vanishes identically. *)
Theorem evaluate_elevated_is_zero (nodes : nodes_t) (x y : Q) :
  (1 <= length nodes <= 3)%nat ->
  yields (evaluate (elevate nodes) x y) 0.
Proof.
  destruct nodes as [| [x0 y0] [| [x1 y1] [| [x2 y2] [| p3 rest]]]];
    simpl length; intros H; try lia.
  - eexists. split; [reflexivity |]. arith_only. field.
  - eexists. split; [reflexivity |]. arith_only. field.
  - exists (_evaluate3 (elevate [(x0, y0); (x1, y1); (x2, y2)]) x y).
    split; [reflexivity |].
    change (elevate [(x0, y0); (x1, y1); (x2, y2)]) with
      [(0 / 3 * x0 + (1 - 0 / 3) * x0, 0 / 3 * y0 + (1 - 0 / 3) * y0);
       (1 / 3 * x0 + (1 - 1 / 3) * x1, 1 / 3 * y0 + (1 - 1 / 3) * y1);
       (2 / 3 * x1 + (1 - 2 / 3) * x2, 2 / 3 * y1 + (1 - 2 / 3) * y2);
       (3 / 3 * x2 + (1 - 3 / 3) * 0, 3 / 3 * y2 + (1 - 3 / 3) * 0)].
    rewrite _evaluate3_bezout.
    arith_only. field.
Qed.

Lemma evaluate_elevated_is_zero_witness :
  yields (evaluate (elevate [(0, 0); (1, 2); (3, 1)]) 5 7) 0.
Proof.
  apply (evaluate_elevated_is_zero [(0, 0); (1, 2); (3, 1)] 5 7).
  simpl; lia.
Defined.

Lemma bezout3_reverse (a0 b0 a1 b1 a2 b2 a3 b3 : Q) :
  det (bezout3 (a3, b3) (a2, b2) (a1, b1) (a0, b0)) ==
  - det (bezout3 (a0, b0) (a1, b1) (a2, b2) (a3, b3)).
Proof. arith_only. ring. Qed.

Lemma bezout3_linear_map (l11 l12 l21 l22 a0 b0 a1 b1 a2 b2 a3 b3 : Q) :
  let L := linear_map l11 l12 l21 l22 in
  det (bezout3 (L (a0, b0)) (L (a1, b1)) (L (a2, b2)) (L (a3, b3))) ==
  qpow (l11 * l22 - l12 * l21) 3 *
  det (bezout3 (a0, b0) (a1, b1) (a2, b2) (a3, b3)).
Proof. arith_only. ring. Qed.

Lemma bezout3_eq (d0 d1 d2 d3 e0 e1 e2 e3 : Q * Q) :
  fst d0 == fst e0 -> snd d0 == snd e0 ->
  fst d1 == fst e1 -> snd d1 == snd e1 ->
  fst d2 == fst e2 -> snd d2 == snd e2 ->
  fst d3 == fst e3 -> snd d3 == snd e3 ->
  det (bezout3 d0 d1 d2 d3) == det (bezout3 e0 e1 e2 e3).
Proof.
  intros. apply det_eq. unfold bezout3, mat_eq, bracket.
  repeat (apply Forall2_cons || apply Forall2_nil);
    repeat match goal with H : _ == _ |- _ => rewrite H; clear H end;
    reflexivity.
Qed.

(** ** Reversing the nodes, mapping the plane *)

(** X5: reversing the order of the nodes (2, 3 or 4 of them) multiplies
    the value of [evaluate] by (-1)^degree, so the zero set of the
    implicit polynomial does not depend on the direction of the curve. *)
Theorem evaluate_reversed (nodes : nodes_t) (x y : Q) :
  (2 <= length nodes <= 4)%nat ->
  exists v v',
    evaluate nodes x y = inr v /\
    evaluate (rev nodes) x y = inr v' /\
    v' == (if Nat.even (length nodes - 1) then v else - v) /\
    (v' == 0 <-> v == 0).
Proof.
  intros H.
  assert (Hs : forall v v' : Q,
             v' == v \/ v' == - v -> (v' == 0 <-> v == 0)).
  { intros v v' [E | E]; rewrite E; split; intros; lra. }
  destruct (rows_2_to_4 nodes H)
    as [([x0 y0] & [x1 y1] & ->) | [([x0 y0] & [x1 y1] & [x2 y2] & ->) |
        ([x0 y0] & [x1 y1] & [x2 y2] & [x3 y3] & ->)]].
  - do 2 eexists. split; [reflexivity |]. split; [reflexivity |].
    assert (E : forall a b : Q, a == - b -> a == - b /\ (a == 0 <-> b == 0))
      by (intros a b E; split; [exact E | apply Hs; right; exact E]).
    apply E. arith_only. ring.
  - do 2 eexists. split; [reflexivity |]. split; [reflexivity |].
    assert (E : forall a b : Q, a == b -> a == b /\ (a == 0 <-> b == 0))
      by (intros a b E; split; [exact E | apply Hs; left; exact E]).
    apply E. arith_only. ring.
  - exists (_evaluate3 [(x0, y0); (x1, y1); (x2, y2); (x3, y3)] x y),
           (_evaluate3 [(x3, y3); (x2, y2); (x1, y1); (x0, y0)] x y).
    split; [reflexivity |]. split; [reflexivity |].
    assert (E : forall a b : Q, a == - b -> a == - b /\ (a == 0 <-> b == 0))
      by (intros a b E; split; [exact E | apply Hs; right; exact E]).
    apply E. rewrite !_evaluate3_bezout. apply bezout3_reverse.
Qed.

Lemma evaluate_reversed_witness :
  exists v v',
    evaluate [(0, 0); (1, 2); (3, 1); (4, 4)] 1 1 = inr v /\
    evaluate (rev [(0, 0); (1, 2); (3, 1); (4, 4)]) 1 1 = inr v' /\
    v' == - v /\ (v' == 0 <-> v == 0).
Proof.
  apply (evaluate_reversed [(0, 0); (1, 2); (3, 1); (4, 4)] 1 1).
  simpl; lia.
Defined.

(** X6: applying a linear map of the plane to every node and to the query
    point multiplies the value of [evaluate] by the determinant of the map
    raised to the degree of the curve. *)
Theorem evaluate_linear_map (l11 l12 l21 l22 : Q) (nodes : nodes_t) (x y : Q) :
  (2 <= length nodes <= 4)%nat ->
  let L := linear_map l11 l12 l21 l22 in
  exists v v',
    evaluate nodes x y = inr v /\
    evaluate (map L nodes) (fst (L (x, y))) (snd (L (x, y))) = inr v' /\
    v' == qpow (l11 * l22 - l12 * l21) (length nodes - 1) * v.
Proof.
  intros H L.
  destruct (rows_2_to_4 nodes H)
    as [([x0 y0] & [x1 y1] & ->) | [([x0 y0] & [x1 y1] & [x2 y2] & ->) |
        ([x0 y0] & [x1 y1] & [x2 y2] & [x3 y3] & ->)]].
  - do 2 eexists. split; [reflexivity |]. split; [reflexivity |].
    arith_only. ring.
  - do 2 eexists. split; [reflexivity |]. split; [reflexivity |].
    arith_only. ring.
  - exists (_evaluate3 [(x0, y0); (x1, y1); (x2, y2); (x3, y3)] x y).
    eexists.
    split; [reflexivity |].
    split.
    + simpl map. unfold L, linear_map; simpl fst; simpl snd.
      reflexivity.
    + rewrite !_evaluate3_bezout.
      simpl length. simpl Nat.sub.
      rewrite <- bezout3_linear_map. cbv zeta.
      apply bezout3_eq; unfold linear_map; simpl; ring.
Qed.

Lemma evaluate_linear_map_witness :
  exists v v',
    evaluate [(0, 0); (1, 2); (3, 1)] 1 1 = inr v /\
    evaluate (map (linear_map 0 1 1 0) [(0, 0); (1, 2); (3, 1)])
             (fst (linear_map 0 1 1 0 (1, 1)))
             (snd (linear_map 0 1 1 0 (1, 1))) = inr v' /\
    v' == qpow (0 * 0 - 1 * 1) 2 * v.
Proof.
  apply (evaluate_linear_map 0 1 1 0 [(0, 0); (1, 2); (3, 1)] 1 1).
  simpl; lia.
Defined.

(** ** Degree 1: the zero set is the line through the nodes *)

(** X7: for a curve of two distinct nodes, [evaluate] returns 0 at a query
    point exactly when the point is a position of the curve at some
    parameter: the implicit polynomial has no zeros off the line. *)
Theorem evaluate_line_zero_set (x0 y0 x1 y1 x y : Q) :
  ~ (x0 == x1 /\ y0 == y1) ->
  exists v,
    evaluate [(x0, y0); (x1, y1)] x y = inr v /\
    (v == 0 <->
     exists t,
       fst (position [(x0, y0); (x1, y1)] t) == x /\
       snd (position [(x0, y0); (x1, y1)] t) == y).
Proof.
  intros Hne.
  eexists. split; [reflexivity |].
  unfold col0, col1; simpl nth; simpl fst; simpl snd.
  split.
  - intros Hv.
    destruct (Qeq_dec x0 x1) as [Ex | Nx].
    + assert (Ny : ~ y1 - y0 == 0)
        by (intros E; apply Hne; split; [exact Ex | clear - E; lra]).
      exists ((y - y0) / (y1 - y0)). split.
      * assert (Hx : (x0 - x) * (y1 - y0) == 0).
        { rewrite <- Hv. rewrite <- Ex. ring. }
        destruct (Qmult_integral _ _ Hx) as [E | E]; [| contradiction].
        arith_only. rewrite <- Ex.
        transitivity x0; [field; exact Ny | clear - E; lra].
      * arith_only. field. exact Ny.
    + assert (Nx' : ~ x1 - x0 == 0) by (intros E; apply Nx; clear - E; lra).
      exists ((x - x0) / (x1 - x0)). split.
      * arith_only. field. exact Nx'.
      * assert (Hy : (x1 - x0) *
                     ((1 - (x - x0) / (x1 - x0)) * y0 +
                      (x - x0) / (x1 - x0) * y1 - y) == 0).
        { transitivity (- ((x0 - x) * (y1 - y) - (x1 - x) * (y0 - y)));
            [field; exact Nx' | rewrite Hv; ring]. }
        destruct (Qmult_integral _ _ Hy) as [E | E]; [contradiction |].
        arith_only.
        transitivity ((1 - (x - x0) / (x1 - x0)) * y0 +
                      (x - x0) / (x1 - x0) * y1); [field; exact Nx' |].
        set (s := (1 - (x - x0) / (x1 - x0)) * y0 +
                  (x - x0) / (x1 - x0) * y1) in *.
        clear - E. lra.
  - intros (t & Hx & Hy).
    cbv -[Qplus Qmult Qminus Qopp Qeq Qdiv Qinv] in Hx, Hy.
    rewrite <- Hx, <- Hy. ring.
Qed.

Lemma evaluate_line_zero_set_witness :
  exists v,
    evaluate [(0, 0); (2, 4)] 1 2 = inr v /\
    (v == 0 <->
     exists t,
       fst (position [(0, 0); (2, 4)] t) == 1 /\
       snd (position [(0, 0); (2, 4)] t) == 2).
Proof.
  apply (evaluate_line_zero_set 0 0 2 4 1 2).
  intros [H _]. discriminate H.
Defined.


(** * Further properties of the power-basis converter *)

(** ** The pairs 1-1 and 1-2: the coefficients are exact *)

Lemma to_power_basis11_everywhere (p0 p1 q0 q1 : Q * Q) :
  exists coeffs,
    to_power_basis [p0; p1] [q0; q1] = inr coeffs /\
    forall t, exists v,
      eval_intersection_polynomial [p0; p1] [q0; q1] t = inr v /\
      horner coeffs t == v.
Proof.
  destruct p0 as [x0 y0], p1 as [x1 y1], q0 as [u0 v0], q1 as [u1 v1].
  eexists. split.
  - arith_only. reflexivity.
  - intros t. eexists. split.
    + arith_only. reflexivity.
    + arith_only. ring.
Qed.

Lemma to_power_basis12_everywhere (p0 p1 q0 q1 q2 : Q * Q) :
  exists coeffs,
    to_power_basis [p0; p1] [q0; q1; q2] = inr coeffs /\
    forall t, exists v,
      eval_intersection_polynomial [p0; p1] [q0; q1; q2] t = inr v /\
      horner coeffs t == v.
Proof.
  destruct p0 as [x0 y0], p1 as [x1 y1].
  destruct q0 as [u0 v0], q1 as [u1 v1], q2 as [u2 v2].
  eexists. split.
  - arith_only. reflexivity.
  - intros t. eexists. split.
    + arith_only. reflexivity.
    + arith_only. ring.
Qed.

(** X8: for the degree pairs 1-1 and 1-2 the polynomial returned by
    [to_power_basis] is the intersection polynomial itself: its Horner
    evaluation at any t equals eval_intersection_polynomial(nodes1,
    nodes2, t), with no scale factor. *)
Theorem to_power_basis_exact (nodes1 nodes2 : nodes_t) :
  (degree nodes1 = 1)%Z ->
  (degree nodes2 = 1 \/ degree nodes2 = 2)%Z ->
  exists coeffs,
    to_power_basis nodes1 nodes2 = inr coeffs /\
    forall t, exists v,
      eval_intersection_polynomial nodes1 nodes2 t = inr v /\
      horner coeffs t == v.
Proof.
  unfold degree. intros H1 H2.
  destruct nodes1 as [| p0 [| p1 [| p2 r1]]]; simpl length in H1; try lia.
  destruct nodes2 as [| q0 [| q1 [| q2 [| q3 r2]]]]; simpl length in H2; try lia.
  - apply to_power_basis11_everywhere.
  - apply to_power_basis12_everywhere.
Qed.

Lemma to_power_basis_exact_witness :
  exists coeffs,
    to_power_basis [(0, 0); (1, 1)] [(0, 1); (1, 0); (3, 5)] = inr coeffs /\
    forall t, exists v,
      eval_intersection_polynomial [(0, 0); (1, 1)] [(0, 1); (1, 0); (3, 5)] t
      = inr v /\
      horner coeffs t == v.
Proof.
  apply (to_power_basis_exact [(0, 0); (1, 1)] [(0, 1); (1, 0); (3, 5)]).
  - reflexivity.
  - right; reflexivity.
Defined.

(** ** A curve against itself *)

Lemma eval_intersection_polynomial_self (nodes : nodes_t) (t : Q) :
  (2 <= length nodes <= 4)%nat ->
  yields (eval_intersection_polynomial nodes nodes t) 0.
Proof.
  intros H. rewrite eval_intersection_polynomial_unfold.
  destruct (rows_2_to_4 nodes H) as [(p0 & p1 & ->) | [(p0 & p1 & p2 & ->) |
                                      (p0 & p1 & p2 & p3 & ->)]].
  - apply evaluate_vanishes_degree1.
  - apply evaluate_vanishes_degree2.
  - apply evaluate_vanishes_degree3.
Qed.

(** X9: [to_power_basis] of a curve of degree 1 or 2 against itself
    returns only zero coefficients. *)
Theorem to_power_basis_self (nodes : nodes_t) :
  (2 <= length nodes <= 3)%nat ->
  exists coeffs,
    to_power_basis nodes nodes = inr coeffs /\
    Forall (fun c => c == 0) coeffs.
Proof.
  intros H.
  assert (Hi : (2 <= length nodes <= 4)%nat) by lia.
  assert (Hz : forall t v,
             eval_intersection_polynomial nodes nodes t = inr v -> v == 0).
  { intros t v E. exact (yields_inr _ _ _ E (eval_intersection_polynomial_self nodes t Hi)). }
  rewrite to_power_basis_dispatch.
  assert (Hl : length nodes = 2%nat \/ length nodes = 3%nat) by lia.
  destruct Hl as [-> | ->].
  - destruct (_to_power_basis11_spec nodes nodes Hi) as (v0 & v1 & E0 & E1 & ->).
    eexists. split; [reflexivity |].
    repeat apply Forall_cons; try apply Forall_nil;
      rewrite ?(Hz _ _ E0), ?(Hz _ _ E1); ring.
  - destruct (_to_power_basis22_spec nodes nodes Hi)
      as (v0 & v1 & v2 & v3 & v4 & E0 & E1 & E2 & E3 & E4 & ->).
    eexists. split; [reflexivity |].
    repeat apply Forall_cons; try apply Forall_nil;
      rewrite ?(Hz _ _ E0), ?(Hz _ _ E1), ?(Hz _ _ E2), ?(Hz _ _ E3),
              ?(Hz _ _ E4); ring.
Qed.

Lemma to_power_basis_self_witness :
  exists coeffs,
    to_power_basis [(0, 0); (1, 2); (3, 1)] [(0, 0); (1, 2); (3, 1)] = inr coeffs /\
    Forall (fun c => c == 0) coeffs.
Proof.
  apply (to_power_basis_self [(0, 0); (1, 2); (3, 1)]).
  simpl; lia.
Defined.

(** ** Translating both curves *)

Lemma evaluate_translate_query (nodes : nodes_t) (dx dy x y x' y' : Q) :
  (2 <= length nodes <= 4)%nat ->
  x' == x + dx -> y' == y + dy ->
  exists v v',
    evaluate nodes x y = inr v /\
    evaluate (translate dx dy nodes) x' y' = inr v' /\
    v' == v.
Proof.
  intros H Hx Hy.
  destruct (rows_2_to_4 nodes H) as [(p0 & p1 & ->) | [(p0 & p1 & p2 & ->) |
                                      (p0 & p1 & p2 & p3 & ->)]].
  - do 2 eexists. split; [reflexivity |]. split; [reflexivity |].
    unfold col0, col1; simpl. rewrite Hx, Hy. ring.
  - do 2 eexists. split; [reflexivity |]. split; [reflexivity |].
    unfold col0, col1; simpl. rewrite Hx, Hy. ring.
  - exists (_evaluate3 [p0; p1; p2; p3] x y),
           (_evaluate3 (translate dx dy [p0; p1; p2; p3]) x' y').
    split; [reflexivity |]. split; [reflexivity |].
    simpl translate. rewrite !_evaluate3_sylvester6.
    apply det_eq, sylvester6_eq; simpl; rewrite ?Hx, ?Hy; ring.
Qed.

Lemma position_translate (nodes : nodes_t) (dx dy t : Q) :
  (2 <= length nodes <= 4)%nat ->
  fst (position (translate dx dy nodes) t) == fst (position nodes t) + dx /\
  snd (position (translate dx dy nodes) t) == snd (position nodes t) + dy.
Proof.
  intros H.
  destruct (rows_2_to_4 nodes H)
    as [([x0 y0] & [x1 y1] & ->) | [([x0 y0] & [x1 y1] & [x2 y2] & ->) |
        ([x0 y0] & [x1 y1] & [x2 y2] & [x3 y3] & ->)]];
    split; arith_only; ring.
Qed.

Lemma translate_length (dx dy : Q) (nodes : nodes_t) :
  length (translate dx dy nodes) = length nodes.
Proof. apply length_map. Qed.

Lemma sample_translate (nodes1 nodes2 : nodes_t) (dx dy t : Q) :
  (2 <= length nodes1 <= 4)%nat ->
  (2 <= length nodes2 <= 4)%nat ->
  exists v v',
    eval_intersection_polynomial nodes1 nodes2 t = inr v /\
    eval_intersection_polynomial
      (translate dx dy nodes1) (translate dx dy nodes2) t = inr v' /\
    v' == v.
Proof.
  intros H1 H2.
  rewrite !eval_intersection_polynomial_unfold.
  destruct (position_translate nodes2 dx dy t H2) as [Hx Hy].
  apply evaluate_translate_query; assumption.
Qed.

(** X10: moving both curves (each of 2, 3 or 4 nodes) by the same offset
    does not change the value of [eval_intersection_polynomial] at any
    parameter. *)
Theorem eval_intersection_polynomial_translate
        (nodes1 nodes2 : nodes_t) (dx dy t : Q) :
  (2 <= length nodes1 <= 4)%nat ->
  (2 <= length nodes2 <= 4)%nat ->
  exists v v',
    eval_intersection_polynomial nodes1 nodes2 t = inr v /\
    eval_intersection_polynomial
      (translate dx dy nodes1) (translate dx dy nodes2) t = inr v' /\
    v' == v.
Proof. apply sample_translate. Qed.

Lemma eval_intersection_polynomial_translate_witness :
  exists v v',
    eval_intersection_polynomial
      [(0, 0); (1, 2); (3, 1)] [(0, 1); (1, 0); (3, 5); (2, 2)] (1 # 3) = inr v /\
    eval_intersection_polynomial
      (translate 5 (-2) [(0, 0); (1, 2); (3, 1)])
      (translate 5 (-2) [(0, 1); (1, 0); (3, 5); (2, 2)]) (1 # 3) = inr v' /\
    v' == v.
Proof.
  apply (eval_intersection_polynomial_translate
           [(0, 0); (1, 2); (3, 1)] [(0, 1); (1, 0); (3, 5); (2, 2)]
           5 (-2) (1 # 3)); simpl; lia.
Defined.

(** X11: for every supported degree pair, moving both curves by the same
    offset leaves every coefficient returned by [to_power_basis]
    unchanged. *)
Theorem to_power_basis_translate (nodes1 nodes2 : nodes_t) (dx dy : Q) :
  supported_pair (degree nodes1) (degree nodes2) = true ->
  exists coeffs coeffs',
    to_power_basis nodes1 nodes2 = inr coeffs /\
    to_power_basis (translate dx dy nodes1) (translate dx dy nodes2)
    = inr coeffs' /\
    Forall2 Qeq coeffs' coeffs.
Proof.
  intros Hs.
  set (m1 := translate dx dy nodes1). set (m2 := translate dx dy nodes2).
  assert (L1 : length m1 = length nodes1) by apply translate_length.
  assert (L2 : length m2 = length nodes2) by apply translate_length.
  assert (Hv : forall t v v',
             (2 <= length nodes1 <= 4)%nat -> (2 <= length nodes2 <= 4)%nat ->
             eval_intersection_polynomial nodes1 nodes2 t = inr v ->
             eval_intersection_polynomial m1 m2 t = inr v' -> v' == v).
  { intros t v v' H1 H2 E E'.
    destruct (sample_translate nodes1 nodes2 dx dy t H1 H2)
      as (w & w' & Ew & Ew' & Hw).
    fold m1 m2 in Ew'. congruence. }
  rewrite !to_power_basis_dispatch, L1, L2.
  destruct (supported_pair_cases _ _ Hs) as [[E1 E2] | [[E1 E2] | [[E1 E2] | [E1 E2]]]];
    assert (Hi : (2 <= length nodes1 <= 4)%nat) by lia;
    assert (Hj : (2 <= length nodes2 <= 4)%nat) by lia;
    assert (Hi' : (2 <= length m1 <= 4)%nat) by lia;
    rewrite E1, E2.
  - destruct (_to_power_basis11_spec nodes1 nodes2 Hi) as (v0 & v1 & E0 & F1 & ->).
    destruct (_to_power_basis11_spec m1 m2 Hi') as (w0 & w1 & G0 & G1 & ->).
    do 2 eexists. split; [reflexivity |]. split; [reflexivity |].
    repeat apply Forall2_cons; try apply Forall2_nil;
      rewrite ?(Hv _ _ _ Hi Hj E0 G0), ?(Hv _ _ _ Hi Hj F1 G1); reflexivity.
  - destruct (_to_power_basis12_spec nodes1 nodes2 Hi)
      as (v0 & v1 & v2 & E0 & F1 & F2 & ->).
    destruct (_to_power_basis12_spec m1 m2 Hi')
      as (w0 & w1 & w2 & G0 & G1 & G2 & ->).
    do 2 eexists. split; [reflexivity |]. split; [reflexivity |].
    repeat apply Forall2_cons; try apply Forall2_nil;
      rewrite ?(Hv _ _ _ Hi Hj E0 G0), ?(Hv _ _ _ Hi Hj F1 G1),
              ?(Hv _ _ _ Hi Hj F2 G2); reflexivity.
  - destruct (_to_power_basis13_spec nodes1 nodes2 Hi)
      as (v0 & v1 & v2 & v3 & E0 & F1 & F2 & F3 & ->).
    destruct (_to_power_basis13_spec m1 m2 Hi')
      as (w0 & w1 & w2 & w3 & G0 & G1 & G2 & G3 & ->).
    do 2 eexists. split; [reflexivity |]. split; [reflexivity |].
    repeat apply Forall2_cons; try apply Forall2_nil;
      rewrite ?(Hv _ _ _ Hi Hj E0 G0), ?(Hv _ _ _ Hi Hj F1 G1),
              ?(Hv _ _ _ Hi Hj F2 G2), ?(Hv _ _ _ Hi Hj F3 G3); reflexivity.
  - destruct (_to_power_basis22_spec nodes1 nodes2 Hi)
      as (v0 & v1 & v2 & v3 & v4 & E0 & F1 & F2 & F3 & F4 & ->).
    destruct (_to_power_basis22_spec m1 m2 Hi')
      as (w0 & w1 & w2 & w3 & w4 & G0 & G1 & G2 & G3 & G4 & ->).
    do 2 eexists. split; [reflexivity |]. split; [reflexivity |].
    repeat apply Forall2_cons; try apply Forall2_nil;
      rewrite ?(Hv _ _ _ Hi Hj E0 G0), ?(Hv _ _ _ Hi Hj F1 G1),
              ?(Hv _ _ _ Hi Hj F2 G2), ?(Hv _ _ _ Hi Hj F3 G3),
              ?(Hv _ _ _ Hi Hj F4 G4); reflexivity.
Qed.

Lemma to_power_basis_translate_witness :
  exists coeffs coeffs',
    to_power_basis [(0, 0); (1, 1)] [(0, 1); (1, 0); (3, 5); (2, 2)] = inr coeffs /\
    to_power_basis (translate 5 (-2) [(0, 0); (1, 1)])
                   (translate 5 (-2) [(0, 1); (1, 0); (3, 5); (2, 2)])
    = inr coeffs' /\
    Forall2 Qeq coeffs' coeffs.
Proof.
  apply (to_power_basis_translate
           [(0, 0); (1, 1)] [(0, 1); (1, 0); (3, 5); (2, 2)] 5 (-2)).
  reflexivity.
Defined.

(** ** The end nodes of the second curve *)

Lemma position_ends (nodes : nodes_t) :
  (2 <= length nodes <= 4)%nat ->
  (fst (position nodes 0) == col0 nodes 0 /\
   snd (position nodes 0) == col1 nodes 0) /\
  (fst (position nodes 1) == col0 nodes (length nodes - 1) /\
   snd (position nodes 1) == col1 nodes (length nodes - 1)).
Proof.
  intros H.
  destruct (rows_2_to_4 nodes H)
    as [([x0 y0] & [x1 y1] & ->) | [([x0 y0] & [x1 y1] & [x2 y2] & ->) |
        ([x0 y0] & [x1 y1] & [x2 y2] & [x3 y3] & ->)]];
    repeat split; arith_only; ring.
Qed.

Lemma sample_at_node (nodes1 nodes2 : nodes_t) (t x y v : Q) :
  (2 <= length nodes1 <= 4)%nat ->
  fst (position nodes2 t) == x -> snd (position nodes2 t) == y ->
  eval_intersection_polynomial nodes1 nodes2 t = inr v ->
  exists w, evaluate nodes1 x y = inr w /\ v == w.
Proof.
  intros H Hx Hy E.
  rewrite eval_intersection_polynomial_unfold in E.
  destruct (evaluate_query_eq nodes1 _ x _ y H Hx Hy) as (a & b & Ea & Eb & Hab).
  exists b. split; [exact Eb |]. congruence.
Qed.

(** X12: for every supported degree pair, the first coefficient returned
    by [to_power_basis] is the scale factor (1 or 3) times [evaluate] of
    the first curve at the first node of the second curve, and the sum of
    the coefficients is the scale factor times [evaluate] at its last
    node. *)
Theorem to_power_basis_end_nodes (nodes1 nodes2 : nodes_t) :
  supported_pair (degree nodes1) (degree nodes2) = true ->
  exists coeffs v_first v_last,
    to_power_basis nodes1 nodes2 = inr coeffs /\
    evaluate nodes1 (col0 nodes2 0) (col1 nodes2 0) = inr v_first /\
    evaluate nodes1 (col0 nodes2 (length nodes2 - 1))
                    (col1 nodes2 (length nodes2 - 1)) = inr v_last /\
    nth 0 coeffs 0 == scale_factor (degree nodes1) (degree nodes2) * v_first /\
    fold_right Qplus 0 coeffs ==
    scale_factor (degree nodes1) (degree nodes2) * v_last.
Proof.
  intros Hs. rewrite to_power_basis_dispatch. unfold degree.
  destruct (supported_pair_cases _ _ Hs) as [[E1 E2] | [[E1 E2] | [[E1 E2] | [E1 E2]]]];
    assert (Hi : (2 <= length nodes1 <= 4)%nat) by lia;
    assert (Hj : (2 <= length nodes2 <= 4)%nat) by lia;
    destruct (position_ends nodes2 Hj) as [[Fx Fy] [Lx Ly]];
    rewrite E1, E2; simpl scale_factor.
  - destruct (_to_power_basis11_spec nodes1 nodes2 Hi) as (v0 & v1 & E0 & F1 & ->).
    destruct (sample_at_node _ _ _ _ _ _ Hi Fx Fy E0) as (a & Ea & Ha).
    destruct (sample_at_node _ _ _ _ _ _ Hi Lx Ly F1) as (b & Eb & Hb).
    exists [v0; - v0 + v1], a, b.
    rewrite E2 in Eb.
    repeat split; try assumption; simpl; rewrite <- ?Ha, <- ?Hb; ring.
  - destruct (_to_power_basis12_spec nodes1 nodes2 Hi)
      as (v0 & v1 & v2 & E0 & F1 & F2 & ->).
    destruct (sample_at_node _ _ _ _ _ _ Hi Fx Fy E0) as (a & Ea & Ha).
    destruct (sample_at_node _ _ _ _ _ _ Hi Lx Ly F2) as (b & Eb & Hb).
    eexists; exists a, b.
    rewrite E2 in Eb.
    repeat split; try eassumption; simpl; rewrite <- ?Ha, <- ?Hb; ring.
  - destruct (_to_power_basis13_spec nodes1 nodes2 Hi)
      as (v0 & v1 & v2 & v3 & E0 & F1 & F2 & F3 & ->).
    destruct (sample_at_node _ _ _ _ _ _ Hi Fx Fy E0) as (a & Ea & Ha).
    destruct (sample_at_node _ _ _ _ _ _ Hi Lx Ly F3) as (b & Eb & Hb).
    eexists; exists a, b.
    rewrite E2 in Eb.
    repeat split; try eassumption; simpl; rewrite <- ?Ha, <- ?Hb; ring.
  - destruct (_to_power_basis22_spec nodes1 nodes2 Hi)
      as (v0 & v1 & v2 & v3 & v4 & E0 & F1 & F2 & F3 & F4 & ->).
    destruct (sample_at_node _ _ _ _ _ _ Hi Fx Fy E0) as (a & Ea & Ha).
    destruct (sample_at_node _ _ _ _ _ _ Hi Lx Ly F4) as (b & Eb & Hb).
    eexists; exists a, b.
    rewrite E2 in Eb.
    repeat split; try eassumption; simpl; rewrite <- ?Ha, <- ?Hb; ring.
Qed.

Lemma to_power_basis_end_nodes_witness :
  exists coeffs v_first v_last,
    to_power_basis [(0, 0); (1, 1)] [(0, 1); (1, 0); (3, 5); (2, 2)] = inr coeffs /\
    evaluate [(0, 0); (1, 1)] 0 1 = inr v_first /\
    evaluate [(0, 0); (1, 1)] 2 2 = inr v_last /\
    nth 0 coeffs 0 == 3 * v_first /\
    fold_right Qplus 0 coeffs == 3 * v_last.
Proof.
  apply (to_power_basis_end_nodes
           [(0, 0); (1, 1)] [(0, 1); (1, 0); (3, 5); (2, 2)]).
  reflexivity.
Defined.

(** ** Length and order of the coefficient array *)

Lemma power_sum_from_horner (coeffs : list Q) (t : Q) :
  forall k, power_sum_from k coeffs t == qpow t k * horner coeffs t.
Proof.
  unfold horner.
  induction coeffs as [| c rest IH]; intros k; simpl.
  - ring.
  - rewrite (IH (S k)). simpl. ring.
Qed.

Lemma power_sum_horner (coeffs : list Q) (t : Q) :
  power_sum coeffs t == horner coeffs t.
Proof.
  unfold power_sum. rewrite power_sum_from_horner. simpl. ring.
Qed.

Lemma to_power_basis_everywhere (nodes1 nodes2 : nodes_t) :
  supported_pair (degree nodes1) (degree nodes2) = true ->
  exists coeffs,
    to_power_basis nodes1 nodes2 = inr coeffs /\
    forall t, exists v,
      eval_intersection_polynomial nodes1 nodes2 t = inr v /\
      horner coeffs t == scale_factor (degree nodes1) (degree nodes2) * v.
Proof.
  intros Hs.
  destruct (supported_pair_cases _ _ Hs) as [[E1 E2] | [[E1 E2] | [[E1 E2] | [E1 E2]]]];
    destruct nodes1 as [| p0 [| p1 [| p2 [| p3 r1]]]]; try discriminate E1;
    destruct nodes2 as [| q0 [| q1 [| q2 [| q3 [| q4 r2]]]]]; try discriminate E2;
    unfold degree; simpl length; simpl scale_factor.
  - destruct (to_power_basis11_everywhere p0 p1 q0 q1) as (c & Hc & Hall).
    exists c. split; [exact Hc |].
    intros t. destruct (Hall t) as (v & Ev & Hv).
    exists v. split; [exact Ev | rewrite Hv; ring].
  - destruct (to_power_basis12_everywhere p0 p1 q0 q1 q2) as (c & Hc & Hall).
    exists c. split; [exact Hc |].
    intros t. destruct (Hall t) as (v & Ev & Hv).
    exists v. split; [exact Ev | rewrite Hv; ring].
  - apply to_power_basis13_everywhere.
  - apply to_power_basis22_everywhere.
Qed.

Lemma to_power_basis_returns_length (nodes1 nodes2 : nodes_t) (coeffs : list Q) :
  supported_pair (degree nodes1) (degree nodes2) = true ->
  to_power_basis nodes1 nodes2 = inr coeffs ->
  Z.of_nat (length coeffs) = (degree nodes1 * degree nodes2 + 1)%Z.
Proof.
  intros Hs Hc. rewrite to_power_basis_dispatch in Hc. unfold degree.
  destruct (supported_pair_cases _ _ Hs) as [[E1 E2] | [[E1 E2] | [[E1 E2] | [E1 E2]]]];
    assert (Hi : (2 <= length nodes1 <= 4)%nat) by lia;
    rewrite E1, E2 in Hc; rewrite E1, E2.
  - destruct (_to_power_basis11_spec nodes1 nodes2 Hi) as (? & ? & _ & _ & E).
    rewrite E in Hc. injection Hc as <-. reflexivity.
  - destruct (_to_power_basis12_spec nodes1 nodes2 Hi) as (? & ? & ? & _ & _ & _ & E).
    rewrite E in Hc. injection Hc as <-. reflexivity.
  - destruct (_to_power_basis13_spec nodes1 nodes2 Hi)
      as (? & ? & ? & ? & _ & _ & _ & _ & E).
    rewrite E in Hc. injection Hc as <-. reflexivity.
  - destruct (_to_power_basis22_spec nodes1 nodes2 Hi)
      as (? & ? & ? & ? & ? & _ & _ & _ & _ & _ & E).
    rewrite E in Hc. injection Hc as <-. reflexivity.
Qed.

(** C6: for every pair of node arrays of a supported degree pair,
    [to_power_basis] returns a coefficient array of length
    deg1 * deg2 + 1 -- 2 for (1,1), 3 for (1,2), 4 for (1,3), 5 for (2,2) --
    in ascending power order: the entry at index i is the coefficient of
    t^i, that is, the sum over i of coeffs[i] * t^i equals the
    intersection polynomial at every t, times the pair's scale factor
    (1 for 1-1 and 1-2, 3 for 1-3 and 2-2). *)
Theorem to_power_basis_length (nodes1 nodes2 : nodes_t) :
  supported_pair (degree nodes1) (degree nodes2) = true ->
  exists coeffs,
    to_power_basis nodes1 nodes2 = inr coeffs /\
    Z.of_nat (length coeffs) = (degree nodes1 * degree nodes2 + 1)%Z /\
    forall t, exists v,
      eval_intersection_polynomial nodes1 nodes2 t = inr v /\
      power_sum coeffs t ==
      scale_factor (degree nodes1) (degree nodes2) * v.
Proof.
  intros Hs.
  destruct (to_power_basis_everywhere nodes1 nodes2 Hs) as (coeffs & Hc & Hall).
  exists coeffs. split; [exact Hc |].
  split; [exact (to_power_basis_returns_length nodes1 nodes2 coeffs Hs Hc) |].
  intros t. destruct (Hall t) as (v & Ev & Hv).
  exists v. split; [exact Ev |].
  rewrite power_sum_horner. exact Hv.
Qed.

Lemma to_power_basis_length_witness :
  exists coeffs,
    to_power_basis [(0, 0); (1, 1); (3, 0)] [(0, 1); (1, 0); (3, 5)] = inr coeffs /\
    Z.of_nat (length coeffs) = 5%Z /\
    forall t, exists v,
      eval_intersection_polynomial
        [(0, 0); (1, 1); (3, 0)] [(0, 1); (1, 0); (3, 5)] t = inr v /\
      power_sum coeffs t == 3 * v.
Proof.
  apply (to_power_basis_length [(0, 0); (1, 1); (3, 0)] [(0, 1); (1, 0); (3, 5)]).
  reflexivity.
Defined.
